(** * Polar-grid sampling of the Slither.io data collector

  A shallow embedding of [extension/content/injected-script.js]: the polar
  grid transform ([angularWarp], [getPolarIndex]), the grid accumulator
  ([createPolarGrid], [splatToGrid], [populateGridWithFood],
  [populateGridWithSnakes]), the adaptive normaliser ([normalizeGrid]) and
  the sampling scheduler ([startCollection], [stopCollection],
  [sampleGameState]).

  Numbers.  A JavaScript Number is modelled by a real number: arithmetic is
  exact, there is no rounding (neither of doubles nor of the [Float32Array]
  cells), no overflow and no NaN produced by arithmetic.  The two zeros of
  IEEE arithmetic are kept apart (type [num]) because [Math.atan2] tells them
  apart on the rear axis.  Where the source would produce a non-finite value
  (a division by zero, the logarithm of a non-positive number) the model is
  meaningless, and the theorems carry the parameter constraints that exclude
  it ([0 < rmin < rmax], [1 <= alpha], [SATURATION_FACTOR <> 0]).

  Cells.  What the script stores in a grid or EMA cell is a binary32 value.
  The statements that name the exact content of a cell, or its limit over
  many ticks, are therefore made about a second embedding of the two
  functions that write cells, [Float32.splatToGrid] and
  [Float32.normalizeGrid]: there a Number is an IEEE double (Rocq's
  primitive floats, whose operations are those of the hardware) and a store
  into a [Float32Array] rounds to binary32 ([Float32.fround]).  Bounds,
  lengths and counts are stated over the real model.

  Arrays.  A typed array is a [list R]; reading outside it gives
  [undefined] and writing outside it does nothing, which is what stdpp's
  lookup and insert do.

  State.  The three mutable objects of the script ([CONFIG], [gameState],
  [samplingState]) form the [State]; a handler takes the state and returns
  the new state with the messages it posted.  Console output is left out. *)

From Stdlib Require Import Floats.
From Stdlib Require Import Reals Lra Lia ZArith Bool String.
From Stdlib Require Import DecimalString DecimalPos DecimalZ Sorted.
From stdpp Require Import base list.

Local Open Scope R_scope.

(* ===================================================================== *)
(** ** Numbers *)

Module Num.

(** A Number: its real value and the sign bit, which is read only when the
    value is zero (it then tells [-0] from [+0]). *)
Record num : Type := Num { val : R; negz : bool }.

(** The IEEE sign bit of a (non-NaN) number. *)
Definition signbit (x : num) : bool :=
  if Rlt_dec (val x) 0 then true
  else if Rlt_dec 0 (val x) then false
  else negz x.

Definition of_R (x : R) : num := Num x false.

(** Unary minus flips the sign bit, also of a zero. *)
Definition neg (x : num) : num := Num (- val x) (negb (signbit x)).

(** The sign of a zero product is the exclusive or of the operands' signs. *)
Definition mul (x y : num) : num :=
  Num (val x * val y) (xorb (signbit x) (signbit y)).

(** A zero sum is [-0] only when both operands are negative zeros; exact
    cancellation gives [+0] (round to nearest). *)
Definition add (x y : num) : num :=
  Num (val x + val y) (signbit x && signbit y).

Definition sub (x y : num) : num := add x (neg y).

End Num.
Export Num.

(* ===================================================================== *)
(** ** The [Math] object *)

Module Math.

Definition hypot (x y : R) : R := sqrt (x * x + y * y).

(** [Math.sign]: -1, 0 or 1. *)
Definition sign (x : R) : R :=
  if Rlt_dec 0 x then 1 else if Rlt_dec x 0 then -1 else 0.

Definition abs (x : R) : R := Rabs x.

Definition log (x : R) : R := ln x.

Definition log1p (x : R) : R := ln (1 + x).

Definition floor (x : R) : Z := Zfloor x.

(** [Math.atan2(y, x)], in [[-PI, PI]].  On the rear axis ([x < 0] and
    [y] a zero) the result is [PI] for [+0] and [-PI] for [-0]; at the
    origin it is [0] before [x = +0] and [PI] or [-PI] before [x = -0]. *)
Definition atan2 (y x : num) : R :=
  if Rlt_dec 0 (val x) then atan (val y / val x)
  else if Rlt_dec (val x) 0 then
    (if signbit y then atan (val y / val x) - PI
     else atan (val y / val x) + PI)
  else if Rlt_dec 0 (val y) then PI / 2
  else if Rlt_dec (val y) 0 then - (PI / 2)
  else if signbit x then (if signbit y then - PI else PI)
  else 0.

(** [Math.cos] and [Math.sin].  [sin] keeps the sign of a zero argument; a
    cosine is never a negative zero. *)
Definition cos (x : num) : num := of_R (Rtrigo_def.cos (val x)).

Definition sin (x : num) : num := Num (Rtrigo_def.sin (val x)) (signbit x).

End Math.

(* ===================================================================== *)
(** ** Polar grid mathematics *)

Definition angularWarp (phi alpha : R) : R :=
  let sign := Math.sign phi in
  let x := Math.abs phi / PI in
  let y := Math.log1p (alpha * x) / Math.log1p alpha in
  sign * y * PI.

(** [getPolarIndex(u, v, K, M, rmin, rmax, alpha)]; [None] is [null]. *)
Definition getPolarIndex (u v : num) (K M : Z) (rmin rmax alpha : R)
  : option (Z * Z) :=
  let r := Math.hypot (val u) (val v) in
  if Rgt_dec r rmax then None
  else if Rlt_dec r rmin then None
  else
    let phi := Math.atan2 v u in
    let warpedPhi := angularWarp phi alpha in
    let theta := (warpedPhi + PI) / (2 * PI) in
    let k := Z.min (K - 1) (Z.max 0 (Math.floor (IZR K * theta))) in
    let logFactor := Math.log (r / rmin) / Math.log (rmax / rmin) in
    let j := Z.min (M - 1) (Z.max 0 (Math.floor (IZR M * logFactor))) in
    Some (k, j).

(* ===================================================================== *)
(** ** Configuration *)

Record Config : Type := {
  ANGULAR_BINS : Z;
  RADIAL_BINS : Z;
  ALPHA_WARP : R;
  R_MIN : R;
  R_MAX : R;
  SAMPLE_RATE_HZ : R;
  EMA_BETA : R;
  SATURATION_FACTOR : R;
  CHANNELS : Z;
  CH_FOOD : Z;
  CH_ENEMY_BODY : Z;
  CH_MY_BODY : Z;
  CH_ENEMY_HEADS : Z;
  USERNAME : string;
  BACKEND_URL : string;
  DEBUG_LOG : bool
}.

(** The configuration the script starts with. *)
Definition defaultConfig : Config := {|
  ANGULAR_BINS := 64;
  RADIAL_BINS := 24;
  ALPHA_WARP := 6;
  R_MIN := 60;
  R_MAX := 3200;
  SAMPLE_RATE_HZ := 10;
  EMA_BETA := 99 / 100;
  SATURATION_FACTOR := 3;
  CHANNELS := 4;
  CH_FOOD := 0;
  CH_ENEMY_BODY := 1;
  CH_MY_BODY := 2;
  CH_ENEMY_HEADS := 3;
  USERNAME := "anonymous";
  BACKEND_URL := "http://127.0.0.1:5055/ingest";
  DEBUG_LOG := false
|}.

(* ===================================================================== *)
(** ** Grids *)

(** What a call can throw. *)
Inductive Error : Type :=
| RangeError   (* a typed array of negative length *)
| TypeError.   (* an index into null *)

(** [new Float32Array(n)]: [n] zeros; a negative length throws. *)
Definition newFloat32Array (n : Z) : Error + list R :=
  if (n <? 0)%Z then inl RangeError else inr (replicate (Z.to_nat n) 0).

Definition gridLength (cfg : Config) : Z :=
  (ANGULAR_BINS cfg * RADIAL_BINS cfg * CHANNELS cfg)%Z.

Definition createPolarGrid (cfg : Config) : Error + list R :=
  newFloat32Array (gridLength cfg).

(** The cell of [(k, j, channel)] in the flat array. *)
Definition flatIndex (cfg : Config) (k j channel : Z) : Z :=
  ((j * ANGULAR_BINS cfg + k) * CHANNELS cfg + channel)%Z.

(** [splatToGrid(grid, k, j, channel, weight)].  An index outside the array
    reads [undefined] and the assignment is dropped: the grid is unchanged. *)
Definition splatToGrid (cfg : Config) (grid : list R) (k j channel : Z)
  (weight : R) : list R :=
  let idx := flatIndex cfg k j channel in
  if (idx <? 0)%Z then grid
  else
    match grid !! Z.to_nat idx with
    | Some cell => <[Z.to_nat idx := Rmin 1 (cell + weight)]> grid
    | None => grid
    end.

(** One turn of the loop of [normalizeGrid], at index [i].  [emaChannels[i]]
    outside the array reads [undefined]: the average is NaN, the write is
    dropped, the comparison fails and the grid cell stays. *)
Definition normalizeCell (cfg : Config) (st : list R * list R) (i : nat)
  : list R * list R :=
  let '(grid, emaChannels) := st in
  match grid !! i, emaChannels !! i with
  | Some g, Some e =>
      let e' := EMA_BETA cfg * e + (1 - EMA_BETA cfg) * g in
      let emaChannels' := <[i := e']> emaChannels in
      if Rlt_dec 0 e'
      then (<[i := Rmin 1 (g / (SATURATION_FACTOR cfg * e'))]> grid,
            emaChannels')
      else (grid, emaChannels')
  | _, _ => st
  end.

(** [normalizeGrid(grid, emaChannels)]: the two arrays after the loop.
    With [emaChannels] null the first index throws; an empty grid never
    indexes. *)
Definition normalizeGrid (cfg : Config) (grid : list R)
  (emaChannels : option (list R)) : Error + (list R * option (list R)) :=
  match emaChannels with
  | Some ema =>
      let '(grid', ema') :=
        fold_left (normalizeCell cfg) (seq 0 (length grid)) (grid, ema) in
      inr (grid', Some ema')
  | None =>
      match grid with
      | [] => inr (grid, None)
      | _ :: _ => inl TypeError
      end
  end.

(** Splatting a sequence of weights into one cell. *)
Definition splatAll (cfg : Config) (grid : list R) (k j channel : Z)
  (weights : list R) : list R :=
  fold_left (fun g w => splatToGrid cfg g k j channel w) weights grid.

Definition sumR (l : list R) : R := fold_right Rplus 0 l.

(** The value of a cell, [0] outside the array. *)
Definition cell (l : list R) (i : nat) : R := default 0 (l !! i).

(** The EMA array after [n] ticks whose raw grids are [raw 0 .. raw (n-1)]. *)
Fixpoint emaAfter (cfg : Config) (raw : nat -> list R) (ema0 : list R)
  (n : nat) : list R :=
  match n with
  | O => ema0
  | S m =>
      let ema := emaAfter cfg raw ema0 m in
      match normalizeGrid cfg (raw m) (Some ema) with
      | inr (_, Some ema') => ema'
      | _ => ema
      end
  end.

(** The normalised grid that tick [n] (counted from 0) sends out. *)
Definition normalizedAt (cfg : Config) (raw : nat -> list R) (ema0 : list R)
  (n : nat) : list R :=
  match normalizeGrid cfg (raw n) (Some (emaAfter cfg raw ema0 n)) with
  | inr (grid', _) => grid'
  | inl _ => raw n
  end.

(** The closed form of an EMA cell after [n] ticks that all bring the raw
    value [x], from the initial value [e0]. *)
Definition emaClosed (cfg : Config) (x e0 : R) (n : nat) : R :=
  x + EMA_BETA cfg ^ n * (e0 - x).

(* ===================================================================== *)
(** ** Values read from the page *)

(** A property of a game object as the script reads it.  The game stores
    Numbers in the properties modelled here; strings and objects are left
    out. *)
Inductive value : Type :=
| VUndefined        (* absent, [undefined] or [null] *)
| VNaN
| VNum (x : num).

(** Truthiness, as [!v] and [v || d] test it: a Number is truthy unless it
    is a zero (or NaN). *)
Definition truthy (v : value) : bool :=
  match v with
  | VNum x => if Req_dec_T (val x) 0 then false else true
  | _ => false
  end.

(** [typeof v === 'number' && !isNaN(v)], with the Number. *)
Definition number (v : value) : option num :=
  match v with
  | VNum x => Some x
  | _ => None
  end.

(** [v || d] for a Number [d]. *)
Definition orDefault (v : value) (d : R) : R :=
  match v with
  | VNum x => if Req_dec_T (val x) 0 then d else val x
  | _ => d
  end.

(** A point of a body: [xx], [yy]. *)
Record Point : Type := { pt_xx : value; pt_yy : value }.

(** A food item: [xx], [yy], [sz]. *)
Record Food : Type := { food_xx : value; food_yy : value; food_sz : value }.

(** A snake object.  [snake_ref] is the identity of the object ([===]);
    [snake_pts] is [None] when [pts] is absent or not an array, and an entry
    of the array is [None] when it is [null]. *)
Record Snake : Type := {
  snake_ref : nat;
  snake_xx : value;
  snake_yy : value;
  snake_ang : num;
  snake_scl : value;
  snake_pts : option (list (option Point))
}.

(** The globals of the page the script reads; [None] is a falsy global. *)
Record Window : Type := {
  win_slither : option Snake;
  win_snake : option Snake;
  win_slithers : option (list (option Snake));
  win_snakes : option (list (option Snake));
  win_foods : option (list (option Food));
  win_xm : value;
  win_ym : value;
  win_ww : value;
  win_hh : value;
  win_ws_open : bool     (* [window.ws && window.ws.readyState === 1] *)
}.

Definition getMySnake (win : Window) : option Snake :=
  match win_slither win with
  | Some s => Some s
  | None => win_snake win
  end.

Definition getAllSnakes (win : Window) : list (option Snake) :=
  match win_slithers win with
  | Some l => l
  | None => default [] (win_snakes win)
  end.

Definition getAllFood (win : Window) : list (option Food) :=
  default [] (win_foods win).

Record Mouse : Type := {
  mouse_x : R;
  mouse_y : R;
  screenWidth : R;
  screenHeight : R
}.

Definition getMousePosition (win : Window) : Mouse := {|
  mouse_x := orDefault (win_xm win) 0;
  mouse_y := orDefault (win_ym win) 0;
  screenWidth := orDefault (win_ww win) 800;
  screenHeight := orDefault (win_hh win) 600
|}.

(* ===================================================================== *)
(** ** Data collection *)

(** The offset [(u, v)] of the point [(xx, yy)] in the frame of [mySnake]:
    [dx = xx - mySnake.xx], [dy = yy - mySnake.yy],
    [u = dx * cos_ang + dy * sin_ang], [v = -dx * sin_ang + dy * cos_ang].
    [None] is the NaN offset a coordinate of [mySnake] that is not a Number
    gives. *)
Definition localOffset (mySnake : Snake) (xx yy : num) : option (num * num) :=
  match number (snake_xx mySnake), number (snake_yy mySnake) with
  | Some sx, Some sy =>
      let cos_ang := Math.cos (snake_ang mySnake) in
      let sin_ang := Math.sin (snake_ang mySnake) in
      let dx := Num.sub xx sx in
      let dy := Num.sub yy sy in
      let u := Num.add (Num.mul dx cos_ang) (Num.mul dy sin_ang) in
      let v := Num.add (Num.mul (Num.neg dx) sin_ang) (Num.mul dy cos_ang) in
      Some (u, v)
  | _, _ => None
  end.

(** The body of the loop of [populateGridWithFood].  With a NaN offset
    [getPolarIndex] returns [[NaN, NaN]], the splat indexes nothing and the
    item is still counted. *)
Definition foodStep (cfg : Config) (mySnake : Snake) (acc : list R * Z)
  (food : option Food) : list R * Z :=
  let '(grid, foodCount) := acc in
  match food with
  | None => acc
  | Some f =>
      match number (food_xx f), number (food_yy f) with
      | Some fx, Some fy =>
          match localOffset mySnake fx fy with
          | None => (grid, (foodCount + 1)%Z)
          | Some (u, v) =>
              match getPolarIndex u v (ANGULAR_BINS cfg) (RADIAL_BINS cfg)
                      (R_MIN cfg) (R_MAX cfg) (ALPHA_WARP cfg) with
              | Some (k, j) =>
                  let weight := orDefault (food_sz f) 1 * (1 / 10) in
                  (splatToGrid cfg grid k j (CH_FOOD cfg) weight,
                   (foodCount + 1)%Z)
              | None => acc
              end
          end
      | _, _ => acc
      end
  end.

Definition populateGridWithFood (cfg : Config) (win : Window)
  (grid : list R) (mySnake : Snake) : list R * Z :=
  fold_left (foodStep cfg mySnake) (getAllFood win) (grid, 0%Z).

Record SnakeData : Type := {
  enemySegments : Z;
  mySegments : Z;
  enemyHeads : Z
}.

(** The body of the inner loop of [populateGridWithSnakes], for the segment
    at index [i] of [snake]. *)
Definition segmentStep (cfg : Config) (mySnake snake : Snake)
  (acc : list R * SnakeData) (i : nat) (segment : option Point)
  : list R * SnakeData :=
  let '(grid, counts) := acc in
  let isMe := Nat.eqb (snake_ref snake) (snake_ref mySnake) in
  match segment with
  | None => acc
  | Some p =>
      match number (pt_xx p), number (pt_yy p) with
      | Some px, Some py =>
          let hit (grid : list R) (splat : Z -> R -> list R -> list R) :=
            let scale := orDefault (snake_scl snake) 1 in
            let weight := scale * (3 / 10) in
            if isMe then
              (splat (CH_MY_BODY cfg) weight grid,
               {| enemySegments := enemySegments counts;
                  mySegments := (mySegments counts + 1)%Z;
                  enemyHeads := enemyHeads counts |})
            else
              let grid1 := splat (CH_ENEMY_BODY cfg) weight grid in
              if Nat.eqb i 0 then
                (splat (CH_ENEMY_HEADS cfg) (weight * 2) grid1,
                 {| enemySegments := (enemySegments counts + 1)%Z;
                    mySegments := mySegments counts;
                    enemyHeads := (enemyHeads counts + 1)%Z |})
              else
                (grid1,
                 {| enemySegments := (enemySegments counts + 1)%Z;
                    mySegments := mySegments counts;
                    enemyHeads := enemyHeads counts |}) in
          match localOffset mySnake px py with
          | None => hit grid (fun _ _ g => g)
          | Some (u, v) =>
              match getPolarIndex u v (ANGULAR_BINS cfg) (RADIAL_BINS cfg)
                      (R_MIN cfg) (R_MAX cfg) (ALPHA_WARP cfg) with
              | Some (k, j) =>
                  hit grid (fun channel w g => splatToGrid cfg g k j channel w)
              | None => acc
              end
          end
      | _, _ => acc
      end
  end.

(** The inner loop, over the segments from index [i] on. *)
Fixpoint segmentsLoop (cfg : Config) (mySnake snake : Snake)
  (acc : list R * SnakeData) (i : nat) (segments : list (option Point))
  : list R * SnakeData :=
  match segments with
  | [] => acc
  | segment :: rest =>
      segmentsLoop cfg mySnake snake
        (segmentStep cfg mySnake snake acc i segment) (S i) rest
  end.

Definition snakeStep (cfg : Config) (mySnake : Snake)
  (acc : list R * SnakeData) (snake : option Snake) : list R * SnakeData :=
  match snake with
  | None => acc
  | Some s =>
      match snake_pts s with
      | None => acc
      | Some segments => segmentsLoop cfg mySnake s acc 0 segments
      end
  end.

Definition populateGridWithSnakes (cfg : Config) (win : Window)
  (grid : list R) (mySnake : Snake) : list R * SnakeData :=
  fold_left (snakeStep cfg mySnake) (getAllSnakes win)
    (grid, {| enemySegments := 0; mySegments := 0; enemyHeads := 0 |}).

(* ===================================================================== *)
(** ** State *)

Record GameState : Type := {
  gameRadius : value;
  isActive : bool;
  sessionId : option string;
  frameCount : Z;
  validFrames : Z;
  errors : Z
}.

(** [samplingInterval] holds the period, in milliseconds, of the running
    timer. *)
Record SamplingState : Type := {
  lastSampleTime : R;
  previousPosition : option (num * num);
  emaChannels : option (list R);
  isBoosting : bool;
  isCollecting : bool;
  samplingInterval : option R
}.

Record State : Type := {
  CONFIG : Config;
  gameState : GameState;
  samplingState : SamplingState
}.

(** The state the script is loaded with. *)
Definition initialState : State := {|
  CONFIG := defaultConfig;
  gameState := {|
    gameRadius := VUndefined;
    isActive := false;
    sessionId := None;
    frameCount := 0;
    validFrames := 0;
    errors := 0
  |};
  samplingState := {|
    lastSampleTime := 0;
    previousPosition := None;
    emaChannels := None;
    isBoosting := false;
    isCollecting := false;
    samplingInterval := None
  |}
|}.

Definition withGameState (st : State) (gs : GameState) : State :=
  {| CONFIG := CONFIG st; gameState := gs; samplingState := samplingState st |}.

Definition withSamplingState (st : State) (ss : SamplingState) : State :=
  {| CONFIG := CONFIG st; gameState := gameState st; samplingState := ss |}.

(** [gameState.frameCount++] *)
Definition incrFrameCount (st : State) : State :=
  let gs := gameState st in
  withGameState st {|
    gameRadius := gameRadius gs;
    isActive := isActive gs;
    sessionId := sessionId gs;
    frameCount := (frameCount gs + 1)%Z;
    validFrames := validFrames gs;
    errors := errors gs
  |}.

(** [gameState.validFrames++] *)
Definition incrValidFrames (st : State) : State :=
  let gs := gameState st in
  withGameState st {|
    gameRadius := gameRadius gs;
    isActive := isActive gs;
    sessionId := sessionId gs;
    frameCount := frameCount gs;
    validFrames := (validFrames gs + 1)%Z;
    errors := errors gs
  |}.

(** [gameState.errors++] *)
Definition incrErrors (st : State) : State :=
  let gs := gameState st in
  withGameState st {|
    gameRadius := gameRadius gs;
    isActive := isActive gs;
    sessionId := sessionId gs;
    frameCount := frameCount gs;
    validFrames := validFrames gs;
    errors := (errors gs + 1)%Z
  |}.

(** [gameState.sessionId = id] *)
Definition setSessionId (st : State) (id : string) : State :=
  let gs := gameState st in
  withGameState st {|
    gameRadius := gameRadius gs;
    isActive := isActive gs;
    sessionId := Some id;
    frameCount := frameCount gs;
    validFrames := validFrames gs;
    errors := errors gs
  |}.

Definition setLastSampleTime (st : State) (now : R) : State :=
  let ss := samplingState st in
  withSamplingState st {|
    lastSampleTime := now;
    previousPosition := previousPosition ss;
    emaChannels := emaChannels ss;
    isBoosting := isBoosting ss;
    isCollecting := isCollecting ss;
    samplingInterval := samplingInterval ss
  |}.

Definition setPreviousPosition (st : State) (pos : num * num) : State :=
  let ss := samplingState st in
  withSamplingState st {|
    lastSampleTime := lastSampleTime ss;
    previousPosition := Some pos;
    emaChannels := emaChannels ss;
    isBoosting := isBoosting ss;
    isCollecting := isCollecting ss;
    samplingInterval := samplingInterval ss
  |}.

Definition setEmaChannels (st : State) (ema : option (list R)) : State :=
  let ss := samplingState st in
  withSamplingState st {|
    lastSampleTime := lastSampleTime ss;
    previousPosition := previousPosition ss;
    emaChannels := ema;
    isBoosting := isBoosting ss;
    isCollecting := isCollecting ss;
    samplingInterval := samplingInterval ss
  |}.

Definition setIsCollecting (st : State) (b : bool) : State :=
  let ss := samplingState st in
  withSamplingState st {|
    lastSampleTime := lastSampleTime ss;
    previousPosition := previousPosition ss;
    emaChannels := emaChannels ss;
    isBoosting := isBoosting ss;
    isCollecting := b;
    samplingInterval := samplingInterval ss
  |}.

Definition setSamplingInterval (st : State) (t : option R) : State :=
  let ss := samplingState st in
  withSamplingState st {|
    lastSampleTime := lastSampleTime ss;
    previousPosition := previousPosition ss;
    emaChannels := emaChannels ss;
    isBoosting := isBoosting ss;
    isCollecting := isCollecting ss;
    samplingInterval := t
  |}.

(* ===================================================================== *)
(** ** Frames and messages *)

Record GridMeta : Type := {
  angularBins : Z;
  radialBins : Z;
  channels : Z;
  rMin : R;
  rMax : R;
  alphaWarp : R
}.

Record Metadata : Type := {
  heading : num;
  headingSin : num;
  headingCos : num;
  velocity : R;
  boost : bool;
  distanceToBorder : R;
  meta_gameRadius : R;
  snakeLength : Z
}.

Record PlayerInput : Type := { mx : R; my : R; input_boost : Z }.

Record Validation : Type := {
  hasSnake : bool;
  hasGlobals : bool;
  hasWebSocket : bool;
  hasInput : bool
}.

Record Debug : Type := {
  foodCount : Z;
  debug_enemySegments : Z;
  debug_mySegments : Z;
  debug_enemyHeads : Z
}.

(** The [dataPackage] of a tick. *)
Record Frame : Type := {
  timestamp : R;
  frame_sessionId : option string;
  frameIndex : Z;
  deltaTime : R;
  username : string;
  grid : list R;
  gridMeta : GridMeta;
  metadata : Metadata;
  playerInput : PlayerInput;
  validation : Validation;
  debug : Debug
}.

(** What the script posts to the content script. *)
Inductive Message : Type :=
| SLITHER_DATA_FRAME (frame : Frame)
| SLITHER_ERROR (error : Error)
| SLITHER_STATUS (collecting : bool) (session : option string).

(* ===================================================================== *)
(** ** The sampling scheduler *)

Definition capturePlayerInput (win : Window) (st : State) (mySnake : Snake)
  : PlayerInput :=
  let mouse := getMousePosition win in
  let centerX := screenWidth mouse / 2 in
  let centerY := screenHeight mouse / 2 in
  let dx := (mouse_x mouse - centerX) / centerX in
  let dy := (mouse_y mouse - centerY) / centerY in
  let cos_ang := val (Math.cos (snake_ang mySnake)) in
  let sin_ang := val (Math.sin (snake_ang mySnake)) in
  let mx := dx * cos_ang + dy * sin_ang in
  let my := - dx * sin_ang + dy * cos_ang in
  let norm := Rmax 1 (Math.hypot mx my) in
  {| mx := mx / norm;
     my := my / norm;
     input_boost := if isBoosting (samplingState st) then 1%Z else 0%Z |}.

(** One tick: [sampleGameState()] with the page [win] at time
    [now = performance.now()].  The result is the state after the tick and the
    messages posted, in order.  Every exception is caught inside. *)
Definition sampleGameState (win : Window) (now : R) (st : State)
  : State * list Message :=
  if negb (isCollecting (samplingState st)) then (st, [])
  else
    let cfg := CONFIG st in
    let deltaTime := (now - lastSampleTime (samplingState st)) / 1000 in
    let st := incrFrameCount st in
    match getMySnake win with
    | None => (st, [])
    | Some mySnake =>
        if negb (truthy (snake_xx mySnake)) || negb (truthy (snake_yy mySnake))
        then (st, [])
        else
          match number (snake_xx mySnake), number (snake_yy mySnake) with
          | Some x, Some y =>
              let currentPos := (x, y) in
              let velocity :=
                match previousPosition (samplingState st) with
                | Some (px, py) =>
                    if Rlt_dec 0 deltaTime
                    then Math.hypot (val x - val px) (val y - val py)
                         / deltaTime
                    else 0
                | None => 0
                end in
              let st := setPreviousPosition st currentPos in
              let gameRadius := orDefault (gameRadius (gameState st)) 21600 in
              let centerX := gameRadius in
              let centerY := gameRadius in
              let distanceToCenter :=
                Math.hypot (val x - centerX) (val y - centerY) in
              let distanceToBorder := Rmax 0 (gameRadius - distanceToCenter) in
              match createPolarGrid cfg with
              | inl error => (incrErrors st, [SLITHER_ERROR error])
              | inr grid =>
                  let '(grid, foodCount) :=
                    populateGridWithFood cfg win grid mySnake in
                  let '(grid, snakeData) :=
                    populateGridWithSnakes cfg win grid mySnake in
                  match normalizeGrid cfg grid
                          (emaChannels (samplingState st)) with
                  | inl error => (incrErrors st, [SLITHER_ERROR error])
                  | inr (grid, ema) =>
                      let st := setEmaChannels st ema in
                      let playerInput := capturePlayerInput win st mySnake in
                      let dataPackage := {|
                        timestamp := now;
                        frame_sessionId := sessionId (gameState st);
                        frameIndex := frameCount (gameState st);
                        deltaTime := deltaTime;
                        username := USERNAME cfg;
                        grid := grid;
                        gridMeta := {|
                          angularBins := ANGULAR_BINS cfg;
                          radialBins := RADIAL_BINS cfg;
                          channels := CHANNELS cfg;
                          rMin := R_MIN cfg;
                          rMax := R_MAX cfg;
                          alphaWarp := ALPHA_WARP cfg
                        |};
                        metadata := {|
                          heading := snake_ang mySnake;
                          headingSin := Math.sin (snake_ang mySnake);
                          headingCos := Math.cos (snake_ang mySnake);
                          velocity := velocity;
                          boost := isBoosting (samplingState st);
                          distanceToBorder := distanceToBorder;
                          meta_gameRadius := gameRadius;
                          snakeLength :=
                            match snake_pts mySnake with
                            | Some pts => Z.of_nat (length pts)
                            | None => 0
                            end
                        |};
                        playerInput := playerInput;
                        validation := {|
                          hasSnake := true;
                          hasGlobals :=
                            bool_decide (is_Some (win_snakes win))
                            && bool_decide (is_Some (win_foods win));
                          hasWebSocket := win_ws_open win;
                          hasInput := true
                        |};
                        debug := {|
                          foodCount := foodCount;
                          debug_enemySegments := enemySegments snakeData;
                          debug_mySegments := mySegments snakeData;
                          debug_enemyHeads := enemyHeads snakeData
                        |}
                      |} in
                      let st := incrValidFrames st in
                      let st := setLastSampleTime st now in
                      (st, [SLITHER_DATA_FRAME dataPackage])
                  end
              end
          | _, _ => (st, [])
          end
    end.

(** [Date.now().toString()] *)
Definition toString (n : Z) : string := NilZero.string_of_int (Z.to_int n).

(** [startCollection()] at [Date.now() = now].  The third component is the
    exception that leaves the function, if any: the allocation of the EMA
    array comes after the first two assignments, and nothing catches it. *)
Definition startCollection (now : Z) (st : State)
  : State * list Message * option Error :=
  if isCollecting (samplingState st) then (st, [], None)
  else
    let cfg := CONFIG st in
    let st := setIsCollecting st true in
    let st := setSessionId st (toString now) in
    match newFloat32Array
            (ANGULAR_BINS cfg * RADIAL_BINS cfg * CHANNELS cfg)%Z with
    | inl error => (st, [], Some error)
    | inr ema =>
        let st := setEmaChannels st (Some ema) in
        let st := setSamplingInterval st (Some (1000 / SAMPLE_RATE_HZ cfg)) in
        (st, [SLITHER_STATUS true (sessionId (gameState st))], None)
    end.

Definition stopCollection (st : State) : State * list Message :=
  if negb (isCollecting (samplingState st)) then (st, [])
  else
    let st := setIsCollecting st false in
    let st :=
      match samplingInterval (samplingState st) with
      | Some _ => setSamplingInterval st None
      | None => st
      end in
    (st, [SLITHER_STATUS false None]).

(* ===================================================================== *)
(** ** A run that starts, ticks once, stops and starts again *)

(** A page that has not loaded a game yet. *)
Definition emptyWindow : Window := {|
  win_slither := None;
  win_snake := None;
  win_slithers := None;
  win_snakes := None;
  win_foods := None;
  win_xm := VUndefined;
  win_ym := VUndefined;
  win_ww := VUndefined;
  win_hh := VUndefined;
  win_ws_open := false
|}.

(** Started, ticked once (no snake yet) and stopped. *)
Definition stoppedState : State :=
  let st1 := (startCollection 1700000000000 initialState).1.1 in
  let st2 := (sampleGameState emptyWindow 100 st1).1 in
  (stopCollection st2).1.

(** ... and started again five seconds later. *)
Definition restartedState : State :=
  (startCollection 1700000005000 stoppedState).1.1.

(** A page in which the observer exists and sits on the line [xx = 0]. *)
Definition snakeAtZero : Snake := {|
  snake_ref := 1;
  snake_xx := VNum (of_R 0);
  snake_yy := VNum (of_R 21600);
  snake_ang := of_R 0;
  snake_scl := VNum (of_R 1);
  snake_pts := Some []
|}.

Definition windowAtZero : Window := {|
  win_slither := Some snakeAtZero;
  win_snake := None;
  win_slithers := Some [Some snakeAtZero];
  win_snakes := None;
  win_foods := Some [];
  win_xm := VUndefined;
  win_ym := VUndefined;
  win_ww := VUndefined;
  win_hh := VUndefined;
  win_ws_open := true
|}.

(* ===================================================================== *)
(** ** The rest of the script: backend, game state and the message listener *)

(** The part of [event.data.config] the script reads: a key that is present
    carries [Some] value.  Keys the script never reads are left out. *)
Record ConfigPatch : Type := {
  patch_ANGULAR_BINS : option Z;
  patch_RADIAL_BINS : option Z;
  patch_ALPHA_WARP : option R;
  patch_R_MIN : option R;
  patch_R_MAX : option R;
  patch_SAMPLE_RATE_HZ : option R;
  patch_EMA_BETA : option R;
  patch_SATURATION_FACTOR : option R;
  patch_CHANNELS : option Z;
  patch_CH_FOOD : option Z;
  patch_CH_ENEMY_BODY : option Z;
  patch_CH_MY_BODY : option Z;
  patch_CH_ENEMY_HEADS : option Z;
  patch_USERNAME : option string;
  patch_BACKEND_URL : option string;
  patch_DEBUG_LOG : option bool
}.

(** [{ ...CONFIG, ...config }] *)
Definition mergeConfig (cfg : Config) (config : ConfigPatch) : Config := {|
  ANGULAR_BINS := default (ANGULAR_BINS cfg) (patch_ANGULAR_BINS config);
  RADIAL_BINS := default (RADIAL_BINS cfg) (patch_RADIAL_BINS config);
  ALPHA_WARP := default (ALPHA_WARP cfg) (patch_ALPHA_WARP config);
  R_MIN := default (R_MIN cfg) (patch_R_MIN config);
  R_MAX := default (R_MAX cfg) (patch_R_MAX config);
  SAMPLE_RATE_HZ := default (SAMPLE_RATE_HZ cfg) (patch_SAMPLE_RATE_HZ config);
  EMA_BETA := default (EMA_BETA cfg) (patch_EMA_BETA config);
  SATURATION_FACTOR :=
    default (SATURATION_FACTOR cfg) (patch_SATURATION_FACTOR config);
  CHANNELS := default (CHANNELS cfg) (patch_CHANNELS config);
  CH_FOOD := default (CH_FOOD cfg) (patch_CH_FOOD config);
  CH_ENEMY_BODY := default (CH_ENEMY_BODY cfg) (patch_CH_ENEMY_BODY config);
  CH_MY_BODY := default (CH_MY_BODY cfg) (patch_CH_MY_BODY config);
  CH_ENEMY_HEADS := default (CH_ENEMY_HEADS cfg) (patch_CH_ENEMY_HEADS config);
  USERNAME := default (USERNAME cfg) (patch_USERNAME config);
  BACKEND_URL := default (BACKEND_URL cfg) (patch_BACKEND_URL config);
  DEBUG_LOG := default (DEBUG_LOG cfg) (patch_DEBUG_LOG config)
|}.

(** [CONFIG = { ...CONFIG, ...event.data.config }]; spreading an absent
    [config] adds nothing. *)
Definition updateConfig (st : State) (config : option ConfigPatch) : State :=
  match config with
  | Some p =>
      {| CONFIG := mergeConfig (CONFIG st) p;
         gameState := gameState st;
         samplingState := samplingState st |}
  | None => st
  end.

Definition setIsActive (st : State) (b : bool) : State :=
  let gs := gameState st in
  withGameState st {|
    gameRadius := gameRadius gs;
    isActive := b;
    sessionId := sessionId gs;
    frameCount := frameCount gs;
    validFrames := validFrames gs;
    errors := errors gs
  |}.

Definition setIsBoosting (st : State) (b : bool) : State :=
  let ss := samplingState st in
  withSamplingState st {|
    lastSampleTime := lastSampleTime ss;
    previousPosition := previousPosition ss;
    emaChannels := emaChannels ss;
    isBoosting := b;
    isCollecting := isCollecting ss;
    samplingInterval := samplingInterval ss
  |}.

(** The [gameState] object of a [SLITHER_GAME_STATE] message. *)
Inductive GameStateReport : Type :=
| ReportActive (isActive : bool) (gameRadius : value)
| ReportStatus (isActive : bool) (session : option string)
    (frameCount validFrames errors : Z).

(** What a handler does to the outside: a message posted to the window or a
    request sent to the backend. *)
Inductive Effect : Type :=
| Post (m : Message)
| PostGameState (report : GameStateReport)
| Fetch (url : string) (body : Frame).

(** [sendDataToBackend(frame)]: the request leaves; its failure comes back
    later as [fetchRejected]. *)
Definition sendDataToBackend (st : State) (frame : Frame) : list Effect :=
  [Fetch (BACKEND_URL (CONFIG st)) frame].

(** The [catch] of the request of [sendDataToBackend]. *)
Definition fetchRejected (st : State) : State := incrErrors st.

(** [checkGameState()], run every second. *)
Definition checkGameState (win : Window) (st : State) : State * list Effect :=
  let wasActive := isActive (gameState st) in
  let st :=
    setIsActive st
      (win_ws_open win && bool_decide (is_Some (getMySnake win))) in
  if isActive (gameState st) && negb wasActive
  then (st, [PostGameState
               (ReportActive true (gameRadius (gameState st)))])
  else (st, []).

(** [event.data] of a window message, by its [type]. *)
Inductive EventData : Type :=
| SLITHER_CONFIG (config : option ConfigPatch)
| SLITHER_CONFIG_UPDATE (config : option ConfigPatch)
| SLITHER_START_COLLECTION
| SLITHER_STOP_COLLECTION
| SLITHER_BOOST_CHANGE (boosting : bool)
| SLITHER_SEND_DATA (frame : Frame)
| SLITHER_REQUEST_STATUS
| OtherType.

(** The [message] listener.  [sameSource] is [event.source === window] and
    [now] is [Date.now()].  The third component is the exception that leaves
    the listener, if any. *)
Definition onMessage (sameSource : bool) (now : Z) (data : EventData)
  (st : State) : State * list Effect * option Error :=
  if negb sameSource then (st, [], None)
  else
    match data with
    | SLITHER_CONFIG config => (updateConfig st config, [], None)
    | SLITHER_CONFIG_UPDATE config => (updateConfig st config, [], None)
    | SLITHER_START_COLLECTION =>
        let '(st', posted, thrown) := startCollection now st in
        (st', map Post posted, thrown)
    | SLITHER_STOP_COLLECTION =>
        let '(st', posted) := stopCollection st in
        (st', map Post posted, None)
    | SLITHER_BOOST_CHANGE boosting => (setIsBoosting st boosting, [], None)
    | SLITHER_SEND_DATA frame => (st, sendDataToBackend st frame, None)
    | SLITHER_REQUEST_STATUS =>
        (st,
         [PostGameState
            (ReportStatus (isActive (gameState st))
               (sessionId (gameState st))
               (frameCount (gameState st))
               (validFrames (gameState st))
               (errors (gameState st)))],
         None)
    | OtherType => (st, [], None)
    end.

(** What the event loop delivers to the script: a window message, a tick of
    the sampling timer, the one-second game-state check, or the failure of a
    request to the backend. *)
Inductive Input : Type :=
| Message_ (sameSource : bool) (now : Z) (data : EventData)
| Tick (win : Window) (now : R)
| Check (win : Window)
| FetchFailed.

(** One turn of the event loop.  The sampling timer only runs between
    [setInterval] and [clearInterval]. *)
Definition step (st : State) (input : Input) : State * list Effect :=
  match input with
  | Message_ sameSource now data => (onMessage sameSource now data st).1
  | Tick win now =>
      match samplingInterval (samplingState st) with
      | Some _ =>
          let '(st', posted) := sampleGameState win now st in
          (st', map Post posted)
      | None => (st, [])
      end
  | Check win => checkGameState win st
  | FetchFailed => (fetchRejected st, [])
  end.

(** A run of the event loop: the final state and everything posted or sent,
    in order. *)
Fixpoint run (st : State) (inputs : list Input) : State * list Effect :=
  match inputs with
  | [] => (st, [])
  | input :: rest =>
      let '(st1, out1) := step st input in
      let '(st2, out2) := run st1 rest in
      (st2, out1 ++ out2)
  end.

(** The frame indices of the data frames among the effects, in order. *)
Definition frameIndices (out : list Effect) : list Z :=
  omap (fun e =>
          match e with
          | Post (SLITHER_DATA_FRAME f) => Some (frameIndex f)
          | _ => None
          end) out.

(** The scheduler is consistent when the timer runs exactly while the
    collecting flag is set and the EMA array is there while collecting. *)
Definition consistent (st : State) : Prop :=
  (isCollecting (samplingState st) = true ->
   is_Some (samplingInterval (samplingState st))
   /\ is_Some (emaChannels (samplingState st)))
  /\ (isCollecting (samplingState st) = false ->
      samplingInterval (samplingState st) = None).

(** An input that neither replaces [CONFIG] nor reports a failed request. *)
Definition quietInput (input : Input) : bool :=
  match input with
  | Message_ _ _ (SLITHER_CONFIG _) => false
  | Message_ _ _ (SLITHER_CONFIG_UPDATE _) => false
  | FetchFailed => false
  | _ => true
  end.

(** An effect that is not a [SLITHER_ERROR] message. *)
Definition notError (e : Effect) : bool :=
  match e with
  | Post (SLITHER_ERROR _) => false
  | _ => true
  end.

(* ===================================================================== *)
(** ** The WebSocket hook of the userscript *)

(** [ToInt32], the wrap-around of the bitwise operators. *)
Definition toInt32 (z : Z) : Z := ((z + 2 ^ 31) mod 2 ^ 32 - 2 ^ 31)%Z.

(** [a << n] *)
Definition shl (a n : Z) : Z := toInt32 (Z.shiftl (toInt32 a) (n mod 32)).

(** [a | b] *)
Definition bor (a b : Z) : Z := toInt32 (Z.lor (toInt32 a) (toInt32 b)).

(** [view.getUint8(i)]; [None] is the [RangeError] of an offset outside the
    buffer. *)
Definition getUint8 (view : list Byte.byte) (i : nat) : option Z :=
  match view !! i with
  | Some b => Some (Z.of_N (Byte.to_N b))
  | None => None
  end.

(** The two fields of the userscript's [gameState] the hook touches. *)
Record HookState : Type := {
  hook_gameRadius : option Z;     (* [null] or the radius *)
  hook_errors : Z
}.

(** [parseWebSocketMessage(buffer)] of the userscript: packet [a] (0x61)
    carries the game radius in bytes 3 to 5, and the first one seen is
    kept. *)
Definition parseWebSocketMessage (buffer : list Byte.byte) (gs : HookState)
  : HookState :=
  let caught := {| hook_gameRadius := hook_gameRadius gs;
                   hook_errors := (hook_errors gs + 1)%Z |} in
  if (length buffer <? 3)%nat then gs
  else
    match getUint8 buffer 2 with
    | None => caught
    | Some messageType =>
        if (messageType =? 97)%Z && (7 <=? length buffer)%nat
           && bool_decide (hook_gameRadius gs = None)
        then
          match getUint8 buffer 3, getUint8 buffer 4, getUint8 buffer 5 with
          | Some b3, Some b4, Some b5 =>
              {| hook_gameRadius := Some (bor (bor (shl b3 16) (shl b4 8)) b5);
                 hook_errors := hook_errors gs |}
          | _, _, _ => caught
          end
        else gs
    end.

(* ===================================================================== *)
(** ** Concrete pages and states *)

(** The script after its first start. *)
Definition collectingState : State :=
  (startCollection 1700000000000 initialState).1.1.

(** An observer in the middle of the map, heading along [x], with one food
    item 100 units ahead. *)
Definition snakeInGame : Snake := {|
  snake_ref := 1;
  snake_xx := VNum (of_R 21600);
  snake_yy := VNum (of_R 21600);
  snake_ang := of_R 0;
  snake_scl := VNum (of_R 1);
  snake_pts := Some [Some {| pt_xx := VNum (of_R 21600);
                            pt_yy := VNum (of_R 21600) |}]
|}.

Definition foodAhead : Food := {|
  food_xx := VNum (of_R 21700);
  food_yy := VNum (of_R 21600);
  food_sz := VNum (of_R 5)
|}.

Definition windowInGame : Window := {|
  win_slither := Some snakeInGame;
  win_snake := None;
  win_slithers := Some [Some snakeInGame];
  win_snakes := None;
  win_foods := Some [Some foodAhead];
  win_xm := VNum (of_R 500);
  win_ym := VNum (of_R 300);
  win_ww := VNum (of_R 800);
  win_hh := VNum (of_R 600);
  win_ws_open := true
|}.

(** A configuration object that only carries [ANGULAR_BINS]. *)
Definition angularBinsPatch (n : Z) : ConfigPatch := {|
  patch_ANGULAR_BINS := Some n;
  patch_RADIAL_BINS := None;
  patch_ALPHA_WARP := None;
  patch_R_MIN := None;
  patch_R_MAX := None;
  patch_SAMPLE_RATE_HZ := None;
  patch_EMA_BETA := None;
  patch_SATURATION_FACTOR := None;
  patch_CHANNELS := None;
  patch_CH_FOOD := None;
  patch_CH_ENEMY_BODY := None;
  patch_CH_MY_BODY := None;
  patch_CH_ENEMY_HEADS := None;
  patch_USERNAME := None;
  patch_BACKEND_URL := None;
  patch_DEBUG_LOG := None
|}.

(* ===================================================================== *)
(** ** The cells in doubles and binary32 *)

Module Float32.

(** What a [Float32Array] cell gives back after [x] was stored in it
    ([Math.fround]): the nearest binary32 value (24 bits of precision, ties
    to even, an infinity beyond the binary32 range), read as a double.
    Zeros, infinities and NaN are stored as they are. *)
Definition fround (x : float) : float :=
  match Prim2SF x with
  | S754_finite s m e =>
      SF2Prim (binary_normalize 24 128 (if s then Z.neg m else Z.pos m) e s)
  | _ => x
  end.

(** [Math.min(a, b)]: NaN if either is NaN; of two zeros the negative one. *)
Definition Math_min (a b : float) : float :=
  match (a ?= b)%float with
  | FLt => a
  | FGt => b
  | FEq => if get_sign b then b else a
  | FNotComparable => nan
  end.

(** The rational number a finite double denotes, as numerator and
    denominator ([0] for an infinity or NaN). *)
Definition parts (x : float) : Z * Z :=
  match Prim2SF x with
  | S754_finite s m e =>
      let n := if s then Z.neg m else Z.pos m in
      if (0 <=? e)%Z then (n * 2 ^ e, 1)%Z else (n, 2 ^ (- e))%Z
  | _ => (0, 1)%Z
  end.

Definition toR (x : float) : R := IZR (fst (parts x)) / IZR (snd (parts x)).

(** [new Float32Array(n)]. *)
Definition newFloat32Array (n : Z) : Error + list float :=
  if (n <? 0)%Z then inl RangeError
  else inr (replicate (Z.to_nat n) 0%float).

Definition createPolarGrid (cfg : Config) : Error + list float :=
  newFloat32Array (gridLength cfg).

(** [splatToGrid(grid, k, j, channel, weight)]: the sum and the minimum are
    computed in doubles, the assignment rounds to binary32. *)
Definition splatToGrid (cfg : Config) (grid : list float) (k j channel : Z)
  (weight : float) : list float :=
  let idx := flatIndex cfg k j channel in
  if (idx <? 0)%Z then grid
  else
    match grid !! Z.to_nat idx with
    | Some cell =>
        <[Z.to_nat idx := fround (Math_min 1 (cell + weight))]> grid
    | None => grid
    end.

Definition splatAll (cfg : Config) (grid : list float) (k j channel : Z)
  (weights : list float) : list float :=
  fold_left (fun g w => splatToGrid cfg g k j channel w) weights grid.

(** One turn of the loop of [normalizeGrid] at index [i], with
    [CONFIG.EMA_BETA] and [CONFIG.SATURATION_FACTOR] as the doubles [beta]
    and [sat].  The average is stored in the EMA cell and read back rounded;
    the comparison [> 0] fails for a zero, a negative value and NaN. *)
Definition normalizeCell (beta sat : float) (st : list float * list float)
  (i : nat) : list float * list float :=
  let '(grid, emaChannels) := st in
  match grid !! i, emaChannels !! i with
  | Some g, Some e =>
      let e' := fround (beta * e + (1 - beta) * g)%float in
      let emaChannels' := <[i := e']> emaChannels in
      if (0 <? e')%float
      then (<[i := fround (Math_min 1 (g / (sat * e')))%float]> grid,
            emaChannels')
      else (grid, emaChannels')
  | _, _ => st
  end.

Definition normalizeGrid (beta sat : float) (grid : list float)
  (emaChannels : option (list float))
  : Error + (list float * option (list float)) :=
  match emaChannels with
  | Some ema =>
      let '(grid', ema') :=
        fold_left (normalizeCell beta sat) (seq 0 (length grid)) (grid, ema) in
      inr (grid', Some ema')
  | None =>
      match grid with
      | [] => inr (grid, None)
      | _ :: _ => inl TypeError
      end
  end.

(** The EMA array after [n] ticks whose raw grids are [raw 0 .. raw (n-1)]. *)
Fixpoint emaAfter (beta sat : float) (raw : nat -> list float)
  (ema0 : list float) (n : nat) : list float :=
  match n with
  | O => ema0
  | S m =>
      let ema := emaAfter beta sat raw ema0 m in
      match normalizeGrid beta sat (raw m) (Some ema) with
      | inr (_, Some ema') => ema'
      | _ => ema
      end
  end.

(** The normalised grid that tick [n] (counted from 0) sends out. *)
Definition normalizedAt (beta sat : float) (raw : nat -> list float)
  (ema0 : list float) (n : nat) : list float :=
  match normalizeGrid beta sat (raw n) (Some (emaAfter beta sat raw ema0 n)) with
  | inr (grid', _) => grid'
  | inl _ => raw n
  end.


(** The EMA cell after one more tick that brings the raw value [x]. *)
Definition emaNext (beta x e : float) : float :=
  fround (beta * e + (1 - beta) * x).

(** The grid cell sent out when the raw value is [x] and the EMA cell was
    just updated to [e']. *)
Definition rescale (sat x e' : float) : float :=
  if (0 <? e')%float then fround (Math_min 1 (x / (sat * e'))) else x.

(** [CONFIG.EMA_BETA] and [CONFIG.SATURATION_FACTOR] as the script sets
    them. *)
#[warnings="-inexact-float"]
Definition EMA_BETA : float := 0.99.

Definition SATURATION_FACTOR : float := 3.0.


End Float32.

(** Evaluates the rational value of the closed doubles of the goal. *)
Ltac toR_eval :=
  unfold Float32.toR;
  repeat match goal with
  | |- context [Float32.parts ?x] =>
      let v := eval vm_compute in (Float32.parts x) in
      change (Float32.parts x) with v
  end;
  cbn [fst snd].
(* ===================================================================== *)
(** ** Theorems: the polar transform *)

Section PolarTransform.

Variables (K M : Z) (rmin rmax alpha : R).

Lemma getPolarIndex_in_range (u v : num) :
  rmin <= Math.hypot (val u) (val v) <= rmax ->
  getPolarIndex u v K M rmin rmax alpha =
  Some (Z.min (K - 1)
          (Z.max 0 (Math.floor
             (IZR K * ((angularWarp (Math.atan2 v u) alpha + PI) / (2 * PI))))),
        Z.min (M - 1)
          (Z.max 0 (Math.floor
             (IZR M * (Math.log (Math.hypot (val u) (val v) / rmin)
                       / Math.log (rmax / rmin)))))).
Proof.
  intros [Hlo Hhi]. unfold getPolarIndex.
  destruct (Rgt_dec _ rmax) as [Hgt|_]; [lra|].
  destruct (Rlt_dec _ rmin) as [Hlt|_]; [lra|].
  reflexivity.
Qed.

Lemma getPolarIndex_out_of_range (u v : num) :
  Math.hypot (val u) (val v) < rmin \/ Math.hypot (val u) (val v) > rmax ->
  getPolarIndex u v K M rmin rmax alpha = None.
Proof.
  intros H. unfold getPolarIndex.
  destruct (Rgt_dec _ rmax) as [Hgt|Hngt]; [reflexivity|].
  destruct (Rlt_dec _ rmin) as [Hlt|Hnlt]; [reflexivity|].
  lra.
Qed.

(** C1: outside [[rmin, rmax]] the transform returns null, inside it returns
    an index pair.  The result is an [option]: null is an ordinary value of
    a pure function, and nothing else is read or written. *)
Theorem getPolarIndex_null_iff_out_of_range (u v : num) :
  let r := Math.hypot (val u) (val v) in
  (getPolarIndex u v K M rmin rmax alpha = None <-> (r < rmin \/ r > rmax))
  /\ ((exists k j, getPolarIndex u v K M rmin rmax alpha = Some (k, j))
      <-> rmin <= r <= rmax).
Proof.
  intros r. subst r.
  destruct (Rlt_le_dec (Math.hypot (val u) (val v)) rmin) as [Hlt|Hge].
  - rewrite getPolarIndex_out_of_range by lra.
    split; split; try tauto; try lra.
    intros (k & j & Hkj). discriminate.
  - destruct (Rlt_le_dec rmax (Math.hypot (val u) (val v))) as [Hgt|Hle].
    + rewrite getPolarIndex_out_of_range by lra.
      split; split; try tauto; try lra.
      intros (k & j & Hkj). discriminate.
    + rewrite getPolarIndex_in_range by lra.
      split; split; try lra; try discriminate; eauto.
Qed.

End PolarTransform.

(** *** Index bounds *)

Lemma clamp_bounds (n x : Z) :
  (1 <= n)%Z -> (0 <= Z.min (n - 1) (Z.max 0 x) < n)%Z.
Proof. lia. Qed.

(** C2: for an in-range offset and a well-formed configuration
    ([1 <= A], [1 <= R], [0 < rMin < rMax], [1 <= alpha]) both indices are
    within the bins: [0 <= k < A] and [0 <= j < R]. *)
Theorem getPolarIndex_within_bins (u v : num) (K M : Z) (rmin rmax alpha : R) :
  (1 <= K)%Z -> (1 <= M)%Z -> 0 < rmin -> rmin < rmax -> 1 <= alpha ->
  rmin <= Math.hypot (val u) (val v) <= rmax ->
  exists k j,
    getPolarIndex u v K M rmin rmax alpha = Some (k, j)
    /\ (0 <= k < K)%Z /\ (0 <= j < M)%Z.
Proof.
  intros HK HM _ _ _ Hr.
  rewrite (getPolarIndex_in_range K M rmin rmax alpha u v Hr).
  eexists _, _. split; [reflexivity|].
  split; apply clamp_bounds; assumption.
Qed.

(** *** Radial monotonicity *)

Lemma logFactor_monotone (rmin rmax r1 r2 : R) :
  0 < rmin -> rmin < rmax -> rmin <= r1 -> r1 <= r2 ->
  Math.log (r1 / rmin) / Math.log (rmax / rmin)
  <= Math.log (r2 / rmin) / Math.log (rmax / rmin).
Proof.
  intros Hmin Hlt H1 H12. unfold Math.log.
  assert (Hd : 0 < ln (rmax / rmin)).
  { rewrite <- ln_1. apply ln_increasing; [lra|].
    apply (Rmult_lt_reg_r rmin); [assumption|].
    unfold Rdiv. rewrite Rmult_assoc, Rinv_l by lra. lra. }
  assert (Hq1 : 0 < r1 / rmin) by (apply Rdiv_lt_0_compat; lra).
  assert (Hq : r1 / rmin <= r2 / rmin).
  { unfold Rdiv. apply Rmult_le_compat_r; [|assumption].
    left. apply Rinv_0_lt_compat. assumption. }
  assert (Hl : ln (r1 / rmin) <= ln (r2 / rmin)).
  { destruct Hq as [Hq|Hq]; [left; apply ln_increasing; assumption|].
    rewrite Hq. right. reflexivity. }
  unfold Rdiv at 1 3. apply Rmult_le_compat_r; [|assumption].
  left. apply Rinv_0_lt_compat. assumption.
Qed.

(** C6: with two in-range offsets of radii [r1 <= r2] (at the same angle or
    not: the radial index depends on the radius alone), the radial index of
    the first is at most that of the second. *)
Theorem getPolarIndex_radial_monotone
  (u1 v1 u2 v2 : num) (K M : Z) (rmin rmax alpha : R) :
  0 < rmin -> rmin < rmax ->
  rmin <= Math.hypot (val u1) (val v1) ->
  Math.hypot (val u1) (val v1) <= Math.hypot (val u2) (val v2) ->
  Math.hypot (val u2) (val v2) <= rmax ->
  exists k1 j1 k2 j2,
    getPolarIndex u1 v1 K M rmin rmax alpha = Some (k1, j1)
    /\ getPolarIndex u2 v2 K M rmin rmax alpha = Some (k2, j2)
    /\ (j1 <= j2)%Z.
Proof.
  intros Hmin Hlt H1 H12 H2.
  rewrite (getPolarIndex_in_range K M rmin rmax alpha u1 v1) by lra.
  rewrite (getPolarIndex_in_range K M rmin rmax alpha u2 v2) by lra.
  eexists _, _, _, _. split; [reflexivity|]. split; [reflexivity|].
  pose proof (logFactor_monotone rmin rmax _ _ Hmin Hlt H1 H12) as Hlf.
  destruct (Z_le_gt_dec M 0) as [HM|HM]; [lia|].
  apply Z.min_le_compat_l, Z.max_le_compat_l.
  unfold Math.floor. apply Zfloor_le.
  apply Rmult_le_compat_l; [|exact Hlf].
  apply IZR_le. lia.
Qed.

(** *** Angular mirror symmetry *)

Lemma signbit_neg (x : num) : signbit (neg x) = negb (signbit x).
Proof.
  unfold neg. unfold signbit at 1. cbn [val negz].
  unfold signbit.
  destruct (Rlt_dec (val x) 0), (Rlt_dec 0 (val x)),
    (Rlt_dec (- val x) 0), (Rlt_dec 0 (- val x));
    try lra; reflexivity.
Qed.

Lemma hypot_neg_r (x : R) (y : num) :
  Math.hypot x (val (neg y)) = Math.hypot x (val y).
Proof. unfold Math.hypot; simpl. f_equal. ring. Qed.

Lemma atan2_neg (y x : num) : Math.atan2 (neg y) x = - Math.atan2 y x.
Proof.
  unfold Math.atan2. rewrite signbit_neg. simpl.
  replace (- val y / val x) with (- (val y / val x)) by (unfold Rdiv; ring).
  rewrite atan_opp.
  destruct (Rlt_dec 0 (val x)); [reflexivity|].
  destruct (Rlt_dec (val x) 0).
  { destruct (signbit y); simpl; ring. }
  destruct (Rlt_dec 0 (val y)), (Rlt_dec (val y) 0),
    (Rlt_dec 0 (- val y)), (Rlt_dec (- val y) 0); try lra.
  destruct (signbit x), (signbit y); simpl; ring.
Qed.

Lemma sign_opp (x : R) : Math.sign (- x) = - Math.sign x.
Proof.
  unfold Math.sign.
  destruct (Rlt_dec 0 x), (Rlt_dec x 0), (Rlt_dec 0 (- x)), (Rlt_dec (- x) 0);
    lra.
Qed.

Lemma angularWarp_opp (phi alpha : R) :
  angularWarp (- phi) alpha = - angularWarp phi alpha.
Proof.
  unfold angularWarp, Math.abs. rewrite sign_opp, Rabs_Ropp. ring.
Qed.

Lemma floor_reflect (n : Z) (x : R) :
  (n - 1 - Math.floor x <= Math.floor (IZR n - x) <= n - Math.floor x)%Z.
Proof.
  unfold Math.floor.
  pose proof (Zfloor_bound x) as [Hlo Hhi].
  pose proof (Zfloor_bound (IZR n - x)) as [Hlo' Hhi'].
  split.
  - apply Zfloor_lub. rewrite !minus_IZR. simpl. lra.
  - apply Z.lt_succ_r, lt_IZR. unfold Z.succ.
    rewrite plus_IZR, minus_IZR. simpl. lra.
Qed.

(** C7: the angular index of the mirrored offset [(u, -v)] is the mirror
    [A - 1 - k] of the angular index [k] of [(u, v)], up to one bin of
    rounding; the radial index is the same. *)
Theorem getPolarIndex_angular_mirror
  (u v : num) (K M : Z) (rmin rmax alpha : R) :
  (1 <= K)%Z -> 1 <= alpha ->
  rmin <= Math.hypot (val u) (val v) <= rmax ->
  exists k j k' j',
    getPolarIndex u v K M rmin rmax alpha = Some (k, j)
    /\ getPolarIndex u (neg v) K M rmin rmax alpha = Some (k', j')
    /\ (K - 1 - k <= k' <= K - 1 - k + 1)%Z
    /\ j' = j.
Proof.
  intros HK _ Hr.
  rewrite (getPolarIndex_in_range K M rmin rmax alpha u v Hr).
  rewrite (getPolarIndex_in_range K M rmin rmax alpha u (neg v))
    by (rewrite hypot_neg_r; exact Hr).
  eexists _, _, _, _. split; [reflexivity|]. split; [reflexivity|].
  rewrite hypot_neg_r, atan2_neg, angularWarp_opp.
  split; [|reflexivity].
  set (w := angularWarp (Math.atan2 v u) alpha).
  replace (IZR K * ((- w + PI) / (2 * PI)))
    with (IZR K - IZR K * ((w + PI) / (2 * PI)))
    by (field; apply PI_neq0).
  pose proof (floor_reflect K (IZR K * ((w + PI) / (2 * PI)))).
  lia.
Qed.

(* ===================================================================== *)
(** ** Theorems: the grid accumulator *)

Lemma splatToGrid_length (cfg : Config) (grid : list R) (k j channel : Z)
  (w : R) :
  length (splatToGrid cfg grid k j channel w) = length grid.
Proof.
  unfold splatToGrid.
  destruct (flatIndex cfg k j channel <? 0)%Z; [reflexivity|].
  destruct (grid !! Z.to_nat (flatIndex cfg k j channel));
    [apply length_insert|reflexivity].
Qed.

Lemma splatToGrid_lookup (cfg : Config) (grid : list R) (k j channel : Z)
  (w c : R) :
  (0 <= flatIndex cfg k j channel)%Z ->
  grid !! Z.to_nat (flatIndex cfg k j channel) = Some c ->
  splatToGrid cfg grid k j channel w !! Z.to_nat (flatIndex cfg k j channel)
  = Some (Rmin 1 (c + w)).
Proof.
  intros Hidx Hc. unfold splatToGrid.
  destruct (Z.ltb_spec (flatIndex cfg k j channel) 0) as [Hneg|_]; [lia|].
  rewrite Hc. apply list_lookup_insert_eq.
  apply lookup_lt_is_Some. eauto.
Qed.

Lemma splatToGrid_lookup_ne (cfg : Config) (grid : list R) (k j channel : Z)
  (w : R) (i : nat) :
  i <> Z.to_nat (flatIndex cfg k j channel) ->
  splatToGrid cfg grid k j channel w !! i = grid !! i.
Proof.
  intros Hne. unfold splatToGrid.
  destruct (flatIndex cfg k j channel <? 0)%Z; [reflexivity|].
  destruct (grid !! Z.to_nat (flatIndex cfg k j channel));
    [|reflexivity].
  apply list_lookup_insert_ne. congruence.
Qed.

Lemma sumR_nonneg (ws : list R) : Forall (fun w => 0 <= w) ws -> 0 <= sumR ws.
Proof.
  induction 1 as [|w ws Hw _ IH]; simpl; [lra|].
  unfold sumR in *. simpl. lra.
Qed.

(** Accumulating nonnegative weights into a cell holding [c <= 1] leaves
    [min(1, c + sum)] there. *)
Lemma splatAll_lookup (cfg : Config) (k j channel : Z) (ws : list R) :
  (0 <= flatIndex cfg k j channel)%Z ->
  Forall (fun w => 0 <= w) ws ->
  forall (grid : list R) (c : R),
    c <= 1 ->
    grid !! Z.to_nat (flatIndex cfg k j channel) = Some c ->
    splatAll cfg grid k j channel ws !! Z.to_nat (flatIndex cfg k j channel)
    = Some (Rmin 1 (c + sumR ws)).
Proof.
  intros Hidx Hws. unfold splatAll.
  induction Hws as [|w ws Hw Hws IH]; intros grid c Hc1 Hc; simpl.
  - rewrite Hc. f_equal. unfold sumR; simpl. rewrite Rmin_right; lra.
  - rewrite (IH _ (Rmin 1 (c + w))).
    + f_equal. pose proof (sumR_nonneg ws Hws) as Hs. unfold sumR in *.
      simpl. set (s := foldr Rplus 0 ws) in *.
      destruct (Rle_dec 1 (c + w)) as [H1|H1].
      * rewrite (Rmin_left 1 (c + w)) by lra.
        rewrite !Rmin_left by lra. reflexivity.
      * rewrite (Rmin_right 1 (c + w)) by lra. f_equal. ring.
    + apply Rmin_l.
    + apply splatToGrid_lookup; assumption.
Qed.

(** In exact arithmetic a splat sets its cell to [min(1.0, cell + weight)]
    and nonnegative weights that sum to more than 1.0, accumulated into a
    cell that starts at 0, leave exactly 1.0 there.  The cells of the script
    are binary32: see [splat_saturating_binary32]. *)
Lemma splat_saturating (cfg : Config) (grid : list R) (k j channel : Z)
  (c : R) :
  (0 <= flatIndex cfg k j channel)%Z ->
  grid !! Z.to_nat (flatIndex cfg k j channel) = Some c ->
  (forall w : R,
     splatToGrid cfg grid k j channel w !! Z.to_nat (flatIndex cfg k j channel)
     = Some (Rmin 1 (c + w)))
  /\ (forall ws : list R,
        c = 0 -> Forall (fun w => 0 <= w) ws -> 1 < sumR ws ->
        splatAll cfg grid k j channel ws
          !! Z.to_nat (flatIndex cfg k j channel) = Some 1).
Proof.
  intros Hidx Hc. split.
  - intros w. apply splatToGrid_lookup; assumption.
  - intros ws -> Hws Hsum.
    rewrite (splatAll_lookup cfg k j channel ws Hidx Hws grid 0) by (lra || done).
    f_equal. apply Rmin_left. lra.
Qed.

(** C9: for bin indices within the configured dimensions the flat index is
    within the array [createPolarGrid] allocates, distinct triples have
    distinct flat indices, and a splat changes that one cell and no other. *)
Theorem flatIndex_in_bounds_injective (cfg : Config) (k j channel : Z) :
  (0 <= k < ANGULAR_BINS cfg)%Z ->
  (0 <= j < RADIAL_BINS cfg)%Z ->
  (0 <= channel < CHANNELS cfg)%Z ->
  (0 <= flatIndex cfg k j channel < gridLength cfg)%Z
  /\ (exists grid0, createPolarGrid cfg = inr grid0
        /\ Z.of_nat (length grid0) = gridLength cfg
        /\ is_Some (grid0 !! Z.to_nat (flatIndex cfg k j channel)))
  /\ (forall k' j' channel' : Z,
        (0 <= k' < ANGULAR_BINS cfg)%Z ->
        (0 <= j' < RADIAL_BINS cfg)%Z ->
        (0 <= channel' < CHANNELS cfg)%Z ->
        flatIndex cfg k' j' channel' = flatIndex cfg k j channel ->
        (k', j', channel') = (k, j, channel))
  /\ (forall (grid : list R) (w : R),
        Z.of_nat (length grid) = gridLength cfg ->
        exists c : R,
          grid !! Z.to_nat (flatIndex cfg k j channel) = Some c
          /\ splatToGrid cfg grid k j channel w
               !! Z.to_nat (flatIndex cfg k j channel)
             = Some (Rmin 1 (c + w)))
  /\ (forall (grid : list R) (w : R) (i : nat),
        length (splatToGrid cfg grid k j channel w) = length grid
        /\ (i <> Z.to_nat (flatIndex cfg k j channel) ->
            splatToGrid cfg grid k j channel w !! i = grid !! i)).
Proof.
  intros Hk Hj Hc.
  assert (Hb : (0 <= flatIndex cfg k j channel < gridLength cfg)%Z).
  { unfold flatIndex, gridLength.
    set (A := ANGULAR_BINS cfg) in *. set (C := CHANNELS cfg) in *.
    set (M := RADIAL_BINS cfg) in *.
    assert (H1 : (0 <= j * A)%Z) by nia.
    assert (H2 : (j * A + A <= M * A)%Z) by nia.
    assert (H3 : (0 <= (j * A + k) * C)%Z) by nia.
    assert (H4 : ((j * A + k) * C + C <= M * A * C)%Z) by nia.
    lia. }
  split; [exact Hb|]. split; [|split; [|split]].
  - unfold createPolarGrid, newFloat32Array.
    destruct (Z.ltb_spec (gridLength cfg) 0) as [Hneg|Hpos]; [lia|].
    eexists. split; [reflexivity|].
    rewrite length_replicate. split; [lia|].
    apply lookup_lt_is_Some. rewrite length_replicate. lia.
  - intros k' j' c' Hk' Hj' Hc' Heq. unfold flatIndex in Heq.
    set (A := ANGULAR_BINS cfg) in *. set (C := CHANNELS cfg) in *.
    assert (Hjk : (j' * A + k' = j * A + k)%Z).
    { destruct (Z.lt_trichotomy (j' * A + k') (j * A + k)) as [H|[H|H]];
        [nia|exact H|nia]. }
    assert (Hjj : j' = j).
    { destruct (Z.lt_trichotomy j' j) as [H|[H|H]]; [nia|exact H|nia]. }
    subst j'.
    assert (k' = k) by lia. subst k'.
    assert (c' = channel) by lia. subst c'.
    reflexivity.
  - intros grid w Hlen.
    destruct (lookup_lt_is_Some_2 grid (Z.to_nat (flatIndex cfg k j channel)))
      as [c Hcell]; [lia|].
    exists c. split; [exact Hcell|].
    apply splatToGrid_lookup; [lia|exact Hcell].
  - intros grid w i. split.
    + apply splatToGrid_length.
    + apply splatToGrid_lookup_ne.
Qed.

(* ===================================================================== *)
(** ** Theorems: the adaptive normaliser *)

Section Normaliser.

Variable cfg : Config.

Local Abbreviation beta := (EMA_BETA cfg).
Local Abbreviation sat := (SATURATION_FACTOR cfg).

Lemma normalizeCell_lookup_ne (st : list R * list R) (i j : nat) :
  j <> i ->
  (normalizeCell cfg st i).1 !! j = st.1 !! j
  /\ (normalizeCell cfg st i).2 !! j = st.2 !! j.
Proof.
  intros Hne. destruct st as [grid ema]. unfold normalizeCell. simpl.
  destruct (grid !! i) as [g|]; [|done].
  destruct (ema !! i) as [e|]; [|done].
  destruct (Rlt_dec 0 _); simpl;
    rewrite ?list_lookup_insert_ne by congruence; done.
Qed.

Lemma normalizeCell_lookup_eq (st : list R * list R) (i : nat) (g e : R) :
  st.1 !! i = Some g -> st.2 !! i = Some e ->
  (normalizeCell cfg st i).2 !! i = Some (beta * e + (1 - beta) * g)
  /\ (normalizeCell cfg st i).1 !! i
     = Some (if Rlt_dec 0 (beta * e + (1 - beta) * g)
             then Rmin 1 (g / (sat * (beta * e + (1 - beta) * g)))
             else g).
Proof.
  destruct st as [grid ema]. simpl. intros Hg He.
  unfold normalizeCell. rewrite Hg, He.
  assert (Hi : (i < length grid)%nat) by (apply lookup_lt_is_Some; eauto).
  assert (Hi' : (i < length ema)%nat) by (apply lookup_lt_is_Some; eauto).
  destruct (Rlt_dec 0 _); simpl;
    rewrite ?list_lookup_insert_eq by assumption; done.
Qed.

Lemma fold_normalizeCell_notin (idxs : list nat) (i : nat) :
  i ∉ idxs ->
  forall st : list R * list R,
    (fold_left (normalizeCell cfg) idxs st).1 !! i = st.1 !! i
    /\ (fold_left (normalizeCell cfg) idxs st).2 !! i = st.2 !! i.
Proof.
  induction idxs as [|a idxs IH]; intros Hnotin st; simpl; [done|].
  apply not_elem_of_cons in Hnotin as [Hne Hnotin].
  destruct (IH Hnotin (normalizeCell cfg st a)) as [-> ->].
  apply normalizeCell_lookup_ne. exact Hne.
Qed.

Lemma seq_split_at (n i : nat) :
  (i < n)%nat -> seq 0 n = seq 0 i ++ i :: seq (S i) (n - S i).
Proof.
  intros Hi. replace n with (i + S (n - S i))%nat at 1 by lia.
  rewrite seq_app. simpl. reflexivity.
Qed.

(** What one call of [normalizeGrid] leaves at index [i]. *)
Lemma normalizeGrid_lookup (grid ema : list R) (i : nat) (g e : R) :
  grid !! i = Some g -> ema !! i = Some e ->
  exists grid' ema',
    normalizeGrid cfg grid (Some ema) = inr (grid', Some ema')
    /\ ema' !! i = Some (beta * e + (1 - beta) * g)
    /\ grid' !! i
       = Some (if Rlt_dec 0 (beta * e + (1 - beta) * g)
               then Rmin 1 (g / (sat * (beta * e + (1 - beta) * g)))
               else g).
Proof.
  intros Hg He. unfold normalizeGrid.
  assert (Hi : (i < length grid)%nat) by (apply lookup_lt_is_Some; eauto).
  rewrite (seq_split_at _ _ Hi), fold_left_app. simpl.
  set (st0 := fold_left (normalizeCell cfg) (seq 0 i) (grid, ema)).
  assert (H0 : st0.1 !! i = Some g /\ st0.2 !! i = Some e).
  { destruct (fold_normalizeCell_notin (seq 0 i) i) with (st := (grid, ema))
      as [H1 H2].
    - rewrite elem_of_seq. lia.
    - subst st0. rewrite H1, H2. simpl. done. }
  destruct H0 as [Hg0 He0].
  destruct (normalizeCell_lookup_eq st0 i g e Hg0 He0) as [He1 Hg1].
  destruct (fold_normalizeCell_notin (seq (S i) (length grid - S i)) i)
    with (st := normalizeCell cfg st0 i) as [H1 H2].
  { rewrite elem_of_seq. lia. }
  destruct (fold_left _ (seq (S i) _) _) as [grid' ema'] eqn:Hfold.
  exists grid', ema'. simpl in H1, H2.
  split; [reflexivity|]. rewrite H1, H2. done.
Qed.

(** *** Convergence under a constant input *)

Section Convergence.

Variables (raw : nat -> list R) (ema0 : list R) (i : nat) (x e0 : R).

Hypothesis beta_range : 0 <= beta < 1.
Hypothesis sat_pos : 0 < sat.
Hypothesis x_pos : 0 < x.
Hypothesis e0_nonneg : 0 <= e0.
Hypothesis raw_const : forall t : nat, raw t !! i = Some x.
Hypothesis ema0_cell : ema0 !! i = Some e0.

Local Abbreviation emaClosed := (emaClosed cfg x e0).

Lemma emaAfter_lookup (n : nat) :
  emaAfter cfg raw ema0 n !! i = Some (emaClosed n).
Proof.
  induction n as [|n IH]; cbn [emaAfter].
  - rewrite ema0_cell. unfold emaClosed. f_equal. simpl. ring.
  - destruct (normalizeGrid_lookup (raw n) (emaAfter cfg raw ema0 n) i x
                (emaClosed n) (raw_const n) IH)
      as (grid' & ema' & Hrun & Hema & _).
    rewrite Hrun, Hema. unfold emaClosed. f_equal. simpl. ring.
Qed.

Lemma beta_pow_range (n : nat) : 0 <= beta ^ n <= 1.
Proof.
  split; [apply pow_le; lra|].
  rewrite <- (pow1 n). apply pow_incr. lra.
Qed.

Lemma emaClosed_succ (n : nat) :
  emaClosed (S n) - x = beta * (emaClosed n - x).
Proof. unfold emaClosed. simpl. ring. Qed.

Lemma emaClosed_floor (n : nat) : (1 - beta) * x <= emaClosed (S n).
Proof.
  unfold emaClosed. simpl.
  pose proof (beta_pow_range n) as [Hlo Hhi].
  assert (Hb : 0 <= beta * beta ^ n <= beta) by nra.
  nra.
Qed.

Lemma emaClosed_succ_pos (n : nat) : 0 < emaClosed (S n).
Proof. pose proof (emaClosed_floor n). nra. Qed.

Lemma normalizedAt_lookup (n : nat) :
  normalizedAt cfg raw ema0 n !! i
  = Some (Rmin 1 (x / (sat * emaClosed (S n)))).
Proof.
  unfold normalizedAt.
  destruct (normalizeGrid_lookup (raw n) (emaAfter cfg raw ema0 n) i x
              (emaClosed n) (raw_const n) (emaAfter_lookup n))
    as (grid' & ema' & Hrun & _ & Hgrid).
  rewrite Hrun, Hgrid.
  replace (beta * emaClosed n + (1 - beta) * x) with (emaClosed (S n))
    by (unfold emaClosed; simpl; ring).
  destruct (Rlt_dec 0 (emaClosed (S n))) as [_|Hneg]; [reflexivity|].
  pose proof (emaClosed_succ_pos n). lra.
Qed.

Lemma emaClosed_cv : Un_cv emaClosed x.
Proof.
  intros eps Heps. unfold R_dist, emaClosed.
  destruct (Req_dec e0 x) as [->|Hne].
  - exists 0%nat. intros n _.
    replace (x + beta ^ n * (x - x) - x) with 0 by ring.
    rewrite Rabs_R0. exact Heps.
  - assert (Hd : 0 < Rabs (e0 - x)) by (apply Rabs_pos_lt; lra).
    destruct (pow_lt_1_zero beta) with (y := eps / Rabs (e0 - x))
      as [N HN].
    + rewrite Rabs_right; lra.
    + apply Rdiv_lt_0_compat; assumption.
    + exists N. intros n Hn.
      replace (x + beta ^ n * (e0 - x) - x) with (beta ^ n * (e0 - x)) by ring.
      rewrite Rabs_mult.
      specialize (HN n Hn).
      apply (Rmult_lt_compat_r (Rabs (e0 - x))) in HN; [|exact Hd].
      unfold Rdiv in HN. rewrite Rmult_assoc, Rinv_l, Rmult_1_r in HN by lra.
      exact HN.
Qed.

Lemma Rmin_1_lipschitz (a b : R) : Rabs (Rmin 1 a - Rmin 1 b) <= Rabs (a - b).
Proof.
  unfold Rmin.
  destruct (Rle_dec 1 a), (Rle_dec 1 b);
    unfold Rabs; repeat destruct (Rcase_abs _); lra.
Qed.

Lemma normalized_cv :
  Un_cv (fun n => Rmin 1 (x / (sat * emaClosed (S n)))) (Rmin 1 (1 / sat)).
Proof.
  intros eps Heps. unfold R_dist.
  set (m := (1 - beta) * x).
  assert (Hm : 0 < m) by (unfold m; apply Rmult_lt_0_compat; lra).
  assert (Hsm : 0 < sat * m) by (apply Rmult_lt_0_compat; assumption).
  destruct (emaClosed_cv (eps * (sat * m))) as [N HN].
  { apply Rmult_lt_0_compat; assumption. }
  exists N. intros n Hn.
  eapply Rle_lt_trans; [apply Rmin_1_lipschitz|].
  pose proof (emaClosed_floor n) as Hfl. fold m in Hfl.
  set (e := emaClosed (S n)) in *.
  assert (He : Rabs (e - x) < eps * (sat * m)).
  { apply (HN (S n)). lia. }
  assert (Hse : 0 < sat * e) by (apply Rmult_lt_0_compat; lra).
  replace (x / (sat * e) - 1 / sat) with ((x - e) * / (sat * e))
    by (field; lra).
  rewrite Rabs_mult, (Rabs_minus_sym x e).
  rewrite (Rabs_right (/ (sat * e)));
    [|left; apply Rinv_0_lt_compat; exact Hse].
  apply (Rmult_lt_reg_r (sat * e)); [exact Hse|].
  rewrite Rmult_assoc, Rinv_l, Rmult_1_r by lra.
  eapply Rlt_le_trans; [exact He|].
  apply Rmult_le_compat_l; [lra|].
  apply Rmult_le_compat_l; lra.
Qed.

(** In exact arithmetic, with a constant raw value [x > 0] in a cell, a
    nonnegative initial EMA cell [e0] and [0 <= beta < 1], the EMA cell after
    [n] calls of [normalizeGrid] is [x + beta^n * (e0 - x)]; it moves
    monotonically toward [x] and converges to it, and the normalised value
    of the cell converges to [min(1, 1 / saturationFactor)].  The cells of
    the script are binary32: see [ema_binary32_fixed_point]. *)
Lemma ema_convergence :
  (forall n : nat,
     emaAfter cfg raw ema0 n !! i = Some (x + beta ^ n * (e0 - x)))
  /\ (forall n : nat,
        (e0 <= x ->
         cell (emaAfter cfg raw ema0 n) i
         <= cell (emaAfter cfg raw ema0 (S n)) i <= x)
        /\ (x <= e0 ->
            x <= cell (emaAfter cfg raw ema0 (S n)) i
            <= cell (emaAfter cfg raw ema0 n) i))
  /\ Un_cv (fun n => cell (emaAfter cfg raw ema0 n) i) x
  /\ Un_cv (fun n => cell (normalizedAt cfg raw ema0 n) i)
       (Rmin 1 (1 / sat)).
Proof.
  pose proof emaAfter_lookup as Hlook.
  assert (Hcell : forall n, cell (emaAfter cfg raw ema0 n) i = emaClosed n).
  { intros n. unfold cell. rewrite Hlook. reflexivity. }
  split; [exact Hlook|]. split; [|split].
  - intros n. rewrite !Hcell.
    pose proof (emaClosed_succ n) as Hs.
    pose proof (beta_pow_range n) as [Hp0 Hp1].
    assert (Hd : emaClosed n - x = beta ^ n * (e0 - x))
      by (unfold emaClosed; ring).
    set (d := emaClosed n - x) in *.
    split; intros Hside.
    + assert (Hdneg : d <= 0).
      { rewrite Hd. rewrite <- (Rmult_0_r (beta ^ n)).
        apply Rmult_le_compat_l; lra. }
      assert (beta * d <= 0 /\ d <= beta * d) by nra.
      subst d. lra.
    + assert (Hdpos : 0 <= d).
      { rewrite Hd. apply Rmult_le_pos; lra. }
      assert (0 <= beta * d /\ beta * d <= d) by nra.
      subst d. lra.
  - intros eps Heps.
    destruct (emaClosed_cv eps Heps) as [N HN].
    exists N. intros n Hn. rewrite Hcell. apply HN. exact Hn.
  - intros eps Heps.
    destruct (normalized_cv eps Heps) as [N HN].
    exists N. intros n Hn. unfold cell.
    rewrite normalizedAt_lookup.
    apply HN. exact Hn.
Qed.

End Convergence.

End Normaliser.

(* ===================================================================== *)
(** ** Theorems: the sampling scheduler *)

Lemma truthy_zero (z : num) : val z = 0 -> truthy (VNum z) = false.
Proof.
  intros Hz. unfold truthy. destruct (Req_dec_T (val z) 0); [reflexivity|].
  contradiction.
Qed.

(** C10: on a tick while collecting, when the observer snake exists and one
    of its coordinates [xx], [yy] is the Number 0, [sampleGameState] returns
    after incrementing the frame counter: no message is posted, and the error
    counter, the valid-frame counter and the whole sampling state (EMA array,
    previous position, last sample time) are as before. *)
Theorem sampleGameState_zero_coordinate
  (win : Window) (now : R) (st : State) (mySnake : Snake) :
  isCollecting (samplingState st) = true ->
  getMySnake win = Some mySnake ->
  (exists z : num, snake_xx mySnake = VNum z /\ val z = 0)
  \/ (exists z : num, snake_yy mySnake = VNum z /\ val z = 0) ->
  let '(st', posted) := sampleGameState win now st in
  posted = []
  /\ st' = incrFrameCount st
  /\ frameCount (gameState st') = (frameCount (gameState st) + 1)%Z
  /\ errors (gameState st') = errors (gameState st)
  /\ validFrames (gameState st') = validFrames (gameState st)
  /\ samplingState st' = samplingState st.
Proof.
  intros Hcoll Hsnake Hzero. unfold sampleGameState.
  rewrite Hcoll, Hsnake. simpl negb. cbv iota.
  assert (Hguard : negb (truthy (snake_xx mySnake))
                   || negb (truthy (snake_yy mySnake)) = true).
  { destruct Hzero as [(z & -> & Hz)|(z & -> & Hz)];
      rewrite (truthy_zero z Hz); simpl;
      [reflexivity|apply orb_true_r]. }
  rewrite Hguard. repeat split; reflexivity.
Qed.

(** C5 as stated fails: a start from Idle does not reset the frame counter.
    After start, one tick, stop and start again the counter still reads 1. *)
Lemma startCollection_keeps_frameCount :
  isCollecting (samplingState stoppedState) = false
  /\ frameCount (gameState stoppedState) = 1%Z
  /\ isCollecting (samplingState restartedState) = true
  /\ frameCount (gameState restartedState) = 1%Z
  /\ frameCount (gameState restartedState) <> 0%Z.
Proof. repeat split; try reflexivity. discriminate. Qed.

(** C5, amended: from Idle, with a valid array length [A*R*C],
    [startCollection] sets the collecting flag, allocates a zeroed EMA array
    of length [A*R*C], assigns the session identifier printed from the
    current time, starts the timer and posts the status; the frame,
    valid-frame and error counters are left as they were.  When already
    collecting it does nothing. *)
Theorem startCollection_spec (now : Z) (st : State) :
  (0 <= gridLength (CONFIG st))%Z ->
  (isCollecting (samplingState st) = true ->
   startCollection now st = (st, [], None))
  /\ (isCollecting (samplingState st) = false ->
      exists st' : State,
        startCollection now st
        = (st', [SLITHER_STATUS true (Some (toString now))], None)
        /\ isCollecting (samplingState st') = true
        /\ emaChannels (samplingState st')
           = Some (replicate (Z.to_nat (gridLength (CONFIG st))) 0)
        /\ sessionId (gameState st') = Some (toString now)
        /\ samplingInterval (samplingState st')
           = Some (1000 / SAMPLE_RATE_HZ (CONFIG st))
        /\ frameCount (gameState st') = frameCount (gameState st)
        /\ validFrames (gameState st') = validFrames (gameState st)
        /\ errors (gameState st') = errors (gameState st)
        /\ CONFIG st' = CONFIG st).
Proof.
  intros Hlen. unfold startCollection. split; intros Hcoll; rewrite Hcoll.
  - reflexivity.
  - fold (gridLength (CONFIG st)). unfold newFloat32Array.
    destruct (Z.ltb_spec (gridLength (CONFIG st)) 0) as [Hneg|_]; [lia|].
    eexists. split; [reflexivity|]. repeat split; reflexivity.
Qed.

(* ===================================================================== *)
(** ** The theorems at concrete inputs *)

Lemma hypot_axis (x : R) : Math.hypot x 0 = Rabs x.
Proof.
  unfold Math.hypot. replace (x * x + 0 * 0) with (Rsqr x)
    by (unfold Rsqr; ring).
  apply sqrt_Rsqr_abs.
Qed.

Lemma hypot_100 : Math.hypot 100 0 = 100.
Proof. rewrite hypot_axis. apply Rabs_right. lra. Qed.

Lemma hypot_200 : Math.hypot 200 0 = 200.
Proof. rewrite hypot_axis. apply Rabs_right. lra. Qed.

Lemma hypot_m100 : Math.hypot (-100) 0 = 100.
Proof. rewrite hypot_axis, Rabs_left; lra. Qed.

(** The radial bin of radius 100 in the default grid. *)
Lemma radial_bin_100 :
  Math.floor (IZR 24 * (Math.log (100 / 60) / Math.log (3200 / 60))) = 3%Z.
Proof.
  unfold Math.floor, Math.log. apply Zfloor_eq.
  assert (H1 : 3 * ln (3200 / 60) < 24 * ln (100 / 60)).
  { replace 3 with (INR 3) by (simpl; lra).
    replace 24 with (INR 24) by (simpl; lra).
    rewrite <- !ln_pow by lra.
    apply ln_increasing; [apply pow_lt; lra|]. simpl. lra. }
  assert (H2 : 24 * ln (100 / 60) < 4 * ln (3200 / 60)).
  { replace 4 with (INR 4) by (simpl; lra).
    replace 24 with (INR 24) by (simpl; lra).
    rewrite <- !ln_pow by lra.
    apply ln_increasing; [apply pow_lt; lra|]. simpl. lra. }
  assert (Hd : 0 < ln (3200 / 60)).
  { rewrite <- ln_1. apply ln_increasing; lra. }
  set (L1 := ln (100 / 60)) in *. set (L2 := ln (3200 / 60)) in *.
  assert (Hq : L1 / L2 * L2 = L1) by (field; lra).
  set (q := L1 / L2) in *.
  replace (IZR 3 + 1) with 4 by lra.
  split.
  - apply (Rmult_le_reg_r L2); [exact Hd|].
    rewrite Rmult_assoc, Hq. lra.
  - apply (Rmult_lt_reg_r L2); [exact Hd|].
    rewrite Rmult_assoc, Hq. lra.
Qed.

Lemma signbit_pos_zero : signbit (of_R 0) = false.
Proof.
  unfold signbit, of_R; simpl.
  destruct (Rlt_dec 0 0); [lra|]. reflexivity.
Qed.

Lemma atan2_ahead : Math.atan2 (of_R 0) (of_R 100) = 0.
Proof.
  unfold Math.atan2; simpl.
  destruct (Rlt_dec 0 100); [|lra].
  replace (0 / 100) with 0 by lra. apply atan_0.
Qed.

Lemma atan2_behind : Math.atan2 (of_R 0) (of_R (-100)) = PI.
Proof.
  unfold Math.atan2. rewrite signbit_pos_zero. simpl.
  destruct (Rlt_dec 0 (-100)); [lra|].
  destruct (Rlt_dec (-100) 0); [|lra].
  replace (0 / -100) with 0 by lra. rewrite atan_0. ring.
Qed.

Lemma angularWarp_0 (alpha : R) : angularWarp 0 alpha = 0.
Proof.
  unfold angularWarp, Math.sign.
  destruct (Rlt_dec 0 0); [lra|]. ring.
Qed.

Lemma angularWarp_PI (alpha : R) : 0 < alpha -> angularWarp PI alpha = PI.
Proof.
  intros Ha. pose proof PI_RGT_0 as Hpi.
  unfold angularWarp, Math.sign, Math.abs, Math.log1p.
  destruct (Rlt_dec 0 PI); [|lra].
  rewrite Rabs_right by lra.
  replace (alpha * (PI / PI)) with alpha by (field; lra).
  assert (Hl : 0 < ln (1 + alpha)).
  { rewrite <- ln_1. apply ln_increasing; lra. }
  field. lra.
Qed.

(** The scenario of the default grid: a point 100 units straight ahead falls
    in the centre angular bin and in a near radial bin. *)
Example getPolarIndex_ahead :
  getPolarIndex (of_R 100) (of_R 0) 64 24 60 3200 6 = Some (32%Z, 3%Z).
Proof.
  rewrite getPolarIndex_in_range by (simpl; rewrite hypot_100; lra).
  simpl val. rewrite hypot_100, atan2_ahead, angularWarp_0, radial_bin_100.
  replace (IZR 64 * ((0 + PI) / (2 * PI))) with (IZR 32)
    by (field; apply PI_neq0).
  unfold Math.floor. rewrite ZfloorZ. reflexivity.
Qed.

(** A point 100 units straight behind falls in the last angular bin when
    its lateral offset is [+0] ... *)
Example getPolarIndex_behind :
  getPolarIndex (of_R (-100)) (of_R 0) 64 24 60 3200 6 = Some (63%Z, 3%Z).
Proof.
  rewrite getPolarIndex_in_range by (simpl; rewrite hypot_m100; lra).
  simpl val. rewrite hypot_m100, atan2_behind, angularWarp_PI, radial_bin_100
    by lra.
  replace (IZR 64 * ((PI + PI) / (2 * PI))) with (IZR 64)
    by (field; apply PI_neq0).
  unfold Math.floor. rewrite ZfloorZ. reflexivity.
Qed.

(** ... and in the first one when it is [-0]. *)
Example getPolarIndex_behind_negative_zero :
  getPolarIndex (of_R (-100)) (neg (of_R 0)) 64 24 60 3200 6
  = Some (0%Z, 3%Z).
Proof.
  rewrite getPolarIndex_in_range
    by (rewrite hypot_neg_r; simpl; rewrite hypot_m100; lra).
  rewrite hypot_neg_r, atan2_neg, angularWarp_opp. simpl val.
  rewrite hypot_m100, atan2_behind, angularWarp_PI, radial_bin_100 by lra.
  replace (IZR 64 * ((- PI + PI) / (2 * PI))) with (IZR 0)
    by (field; apply PI_neq0).
  unfold Math.floor. rewrite ZfloorZ. reflexivity.
Qed.

(** A food item 100 units straight ahead, in the default configuration. *)
Lemma getPolarIndex_within_bins_witness :
  exists k j,
    getPolarIndex (of_R 100) (of_R 0) 64 24 60 3200 6 = Some (k, j)
    /\ (0 <= k < 64)%Z /\ (0 <= j < 24)%Z.
Proof.
  apply (getPolarIndex_within_bins (of_R 100) (of_R 0) 64 24 60 3200 6);
    try lia; try lra.
  simpl. rewrite hypot_100. lra.
Defined.

(** Two points straight ahead, at 100 and at 200 units. *)
Lemma getPolarIndex_radial_monotone_witness :
  exists k1 j1 k2 j2,
    getPolarIndex (of_R 100) (of_R 0) 64 24 60 3200 6 = Some (k1, j1)
    /\ getPolarIndex (of_R 200) (of_R 0) 64 24 60 3200 6 = Some (k2, j2)
    /\ (j1 <= j2)%Z.
Proof.
  apply (getPolarIndex_radial_monotone
           (of_R 100) (of_R 0) (of_R 200) (of_R 0) 64 24 60 3200 6);
    simpl; rewrite ?hypot_100, ?hypot_200; lra.
Defined.

(** A point straight behind: [v = +0] and its mirror [v = -0]. *)
Lemma getPolarIndex_angular_mirror_witness :
  exists k j k' j',
    getPolarIndex (of_R (-100)) (of_R 0) 64 24 60 3200 6 = Some (k, j)
    /\ getPolarIndex (of_R (-100)) (neg (of_R 0)) 64 24 60 3200 6
       = Some (k', j')
    /\ (64 - 1 - k <= k' <= 64 - 1 - k + 1)%Z
    /\ j' = j.
Proof.
  apply (getPolarIndex_angular_mirror
           (of_R (-100)) (of_R 0) 64 24 60 3200 6);
    try lia; try lra.
  simpl. rewrite hypot_m100. lra.
Defined.

(** The last cell of the default grid. *)
Lemma flatIndex_in_bounds_injective_witness :
  (0 <= flatIndex defaultConfig 63 23 3 < gridLength defaultConfig)%Z.
Proof.
  apply (flatIndex_in_bounds_injective defaultConfig 63 23 3); simpl; lia.
Defined.

(** The first start of the script. *)
Lemma startCollection_spec_witness :
  exists st' : State,
    startCollection 1700000000000 initialState
    = (st', [SLITHER_STATUS true (Some (toString 1700000000000))], None)
    /\ emaChannels (samplingState st') = Some (replicate (Z.to_nat 6144) 0)
    /\ frameCount (gameState st') = 0%Z
    /\ errors (gameState st') = 0%Z.
Proof.
  destruct (startCollection_spec 1700000000000 initialState) as [_ Hidle].
  - unfold gridLength. simpl. lia.
  - destruct (Hidle eq_refl)
      as (st' & Hrun & _ & Hema & _ & _ & Hfc & _ & Herr & _).
    exists st'. split; [exact Hrun|]. split; [exact Hema|].
    split; [exact Hfc|exact Herr].
Defined.

(** A tick while the observer sits at [xx = 0]. *)
Lemma sampleGameState_zero_coordinate_witness :
  sampleGameState windowAtZero 100
    (startCollection 1700000000000 initialState).1.1
  = (incrFrameCount (startCollection 1700000000000 initialState).1.1, []).
Proof.
  pose proof (sampleGameState_zero_coordinate windowAtZero 100
                (startCollection 1700000000000 initialState).1.1
                snakeAtZero eq_refl eq_refl) as H.
  destruct (sampleGameState windowAtZero 100 _) as [st' posted].
  destruct H as (-> & -> & _).
  - left. exists (of_R 0). split; reflexivity.
  - reflexivity.
Defined.

(* ===================================================================== *)
(** ** More on the polar transform *)

Lemma atan_nonneg (x : R) : 0 <= x -> 0 <= atan x.
Proof.
  intros [Hx | <-]; [|rewrite atan_0; lra].
  left. rewrite <- atan_0. apply atan_increasing. exact Hx.
Qed.

Lemma atan_nonpos (x : R) : x <= 0 -> atan x <= 0.
Proof.
  intros [Hx | ->]; [|rewrite atan_0; lra].
  left. rewrite <- atan_0. apply atan_increasing. exact Hx.
Qed.

Lemma signbit_true_nonpos (x : num) : signbit x = true -> val x <= 0.
Proof.
  unfold signbit. destruct (Rlt_dec (val x) 0); [lra|].
  destruct (Rlt_dec 0 (val x)); [discriminate|lra].
Qed.

Lemma signbit_false_nonneg (x : num) : signbit x = false -> 0 <= val x.
Proof.
  unfold signbit. destruct (Rlt_dec (val x) 0); [discriminate|lra].
Qed.

(** [Math.atan2] stays within [[-PI, PI]]. *)
Lemma atan2_range (y x : num) : - PI <= Math.atan2 y x <= PI.
Proof.
  pose proof PI_RGT_0 as Hpi. unfold Math.atan2.
  destruct (Rlt_dec 0 (val x)) as [Hx|Hx].
  { pose proof (atan_bound (val y / val x)). lra. }
  destruct (Rlt_dec (val x) 0) as [Hx'|Hx'].
  { pose proof (atan_bound (val y / val x)) as Hb.
    assert (Hinv : / val x < 0) by (apply Rinv_lt_0_compat; exact Hx').
    destruct (signbit y) eqn:Hs.
    - apply signbit_true_nonpos in Hs.
      assert (0 <= atan (val y / val x)).
      { apply atan_nonneg. unfold Rdiv. nra. }
      lra.
    - apply signbit_false_nonneg in Hs.
      assert (atan (val y / val x) <= 0).
      { apply atan_nonpos. unfold Rdiv. nra. }
      lra. }
  destruct (Rlt_dec 0 (val y)); [lra|].
  destruct (Rlt_dec (val y) 0); [lra|].
  destruct (signbit x), (signbit y); lra.
Qed.

Section Warp.

Variable alpha : R.
Hypothesis alpha_pos : 0 < alpha.

Lemma log1p_alpha_pos : 0 < Math.log1p alpha.
Proof.
  unfold Math.log1p. rewrite <- ln_1. apply ln_increasing; lra.
Qed.

(** On the nonnegative side the warp is [ln(1 + alpha*phi/PI) / ln(1 + alpha)]
    times [PI]. *)
Lemma angularWarp_nonneg_eq (phi : R) :
  0 <= phi ->
  angularWarp phi alpha
  = ln (1 + alpha * (phi / PI)) / Math.log1p alpha * PI.
Proof.
  intros Hphi. unfold angularWarp, Math.sign, Math.abs.
  destruct (Rlt_dec 0 phi) as [Hpos|Hnpos].
  - rewrite Rabs_right by lra. unfold Math.log1p at 1. ring.
  - assert (phi = 0) by lra. subst phi.
    destruct (Rlt_dec 0 0); [lra|].
    replace (1 + alpha * (0 / PI)) with 1 by (unfold Rdiv; ring).
    rewrite ln_1. unfold Rdiv. ring.
Qed.

Lemma angularWarp_increasing_nonneg (a b : R) :
  0 <= a -> a < b -> angularWarp a alpha < angularWarp b alpha.
Proof.
  intros Ha Hab. pose proof PI_RGT_0 as Hpi.
  pose proof log1p_alpha_pos as Hl.
  rewrite !angularWarp_nonneg_eq by lra.
  apply Rmult_lt_compat_r; [lra|].
  unfold Rdiv at 1 3. apply Rmult_lt_compat_r.
  { apply Rinv_0_lt_compat. exact Hl. }
  assert (Hinv : 0 < / PI) by (apply Rinv_0_lt_compat; lra).
  assert (H0 : 0 <= a / PI) by (unfold Rdiv; nra).
  assert (Hlt : a / PI < b / PI) by (unfold Rdiv; nra).
  apply ln_increasing; nra.
Qed.

(** The warp is strictly increasing. *)
Lemma angularWarp_increasing (a b : R) :
  a < b -> angularWarp a alpha < angularWarp b alpha.
Proof.
  intros Hab.
  assert (H0 : angularWarp 0 alpha = 0).
  { unfold angularWarp, Math.sign. destruct (Rlt_dec 0 0); [lra|]. ring. }
  destruct (Rle_lt_dec 0 a) as [Ha|Ha].
  { apply angularWarp_increasing_nonneg; assumption. }
  destruct (Rle_lt_dec b 0) as [Hb|Hb].
  { rewrite <- (Ropp_involutive a), <- (Ropp_involutive b).
    rewrite !(angularWarp_opp (- _)).
    apply Ropp_lt_contravar.
    apply angularWarp_increasing_nonneg; lra. }
  pose proof (angularWarp_increasing_nonneg 0 (- a)) as Hna.
  pose proof (angularWarp_increasing_nonneg 0 b) as Hpb.
  rewrite H0 in Hna, Hpb. rewrite angularWarp_opp in Hna.
  assert (0 < - angularWarp a alpha) by (apply Hna; lra).
  assert (0 < angularWarp b alpha) by (apply Hpb; lra).
  lra.
Qed.

Lemma angularWarp_at_PI : angularWarp PI alpha = PI.
Proof.
  pose proof PI_RGT_0 as Hpi. pose proof log1p_alpha_pos as Hl.
  rewrite angularWarp_nonneg_eq by lra.
  replace (1 + alpha * (PI / PI)) with (1 + alpha) by (field; lra).
  unfold Math.log1p in *. field. lra.
Qed.

Lemma angularWarp_bounds (phi : R) :
  - PI <= phi <= PI ->
  - PI <= angularWarp phi alpha <= PI
  /\ (phi < PI -> angularWarp phi alpha < PI)
  /\ 0 <= (angularWarp phi alpha + PI) / (2 * PI) <= 1.
Proof.
  intros [Hlo Hhi]. pose proof PI_RGT_0 as Hpi.
  assert (Hup : angularWarp phi alpha <= PI).
  { destruct Hhi as [Hlt | ->]; [|rewrite angularWarp_at_PI; lra].
    left. rewrite <- angularWarp_at_PI. apply angularWarp_increasing. exact Hlt. }
  assert (Hdown : - PI <= angularWarp phi alpha).
  { destruct Hlo as [Hlt | <-].
    - left. rewrite <- angularWarp_at_PI at 1. rewrite <- angularWarp_opp.
      apply angularWarp_increasing. exact Hlt.
    - rewrite angularWarp_opp, angularWarp_at_PI. lra. }
  split; [lra|]. split.
  - intros Hlt. rewrite <- angularWarp_at_PI.
    apply angularWarp_increasing. exact Hlt.
  - assert (H2 : 0 < 2 * PI) by lra.
    split.
    + apply Rmult_le_reg_r with (2 * PI); [exact H2|].
      unfold Rdiv. rewrite Rmult_assoc, Rinv_l by lra. lra.
    + apply Rmult_le_reg_r with (2 * PI); [exact H2|].
      unfold Rdiv. rewrite Rmult_assoc, Rinv_l by lra. lra.
Qed.

(** X1: for [alpha > 0] the warp is odd, strictly increasing and fixes [0],
    [PI] and [-PI]; it therefore maps [[-PI, PI]] into itself. *)
Theorem angularWarp_odd_increasing :
  (forall phi : R, angularWarp (- phi) alpha = - angularWarp phi alpha)
  /\ (forall a b : R, a < b -> angularWarp a alpha < angularWarp b alpha)
  /\ angularWarp 0 alpha = 0
  /\ angularWarp PI alpha = PI
  /\ angularWarp (- PI) alpha = - PI
  /\ (forall phi : R,
        - PI <= phi <= PI -> - PI <= angularWarp phi alpha <= PI).
Proof.
  split; [intros phi; apply angularWarp_opp|].
  split; [exact angularWarp_increasing|].
  split.
  { unfold angularWarp, Math.sign. destruct (Rlt_dec 0 0); [lra|]. ring. }
  split; [exact angularWarp_at_PI|].
  split; [rewrite angularWarp_opp, angularWarp_at_PI; reflexivity|].
  intros phi Hphi. apply angularWarp_bounds. exact Hphi.
Qed.

End Warp.

(** X2: for an in-range offset, [K >= 1] and [alpha > 0] the clamp of the
    angular index is idle except straight behind: the index is
    [floor(K * theta)] with [0 <= theta < 1] whenever [atan2(v, u) < PI],
    and it is the last bin [K - 1] when [atan2(v, u) = PI]. *)
Theorem getPolarIndex_angular_exact
  (u v : num) (K M : Z) (rmin rmax alpha : R) :
  (1 <= K)%Z -> 0 < alpha ->
  rmin <= Math.hypot (val u) (val v) <= rmax ->
  exists k j,
    getPolarIndex u v K M rmin rmax alpha = Some (k, j)
    /\ (Math.atan2 v u < PI ->
        0 <= (angularWarp (Math.atan2 v u) alpha + PI) / (2 * PI) < 1
        /\ k = Math.floor
                (IZR K * ((angularWarp (Math.atan2 v u) alpha + PI) / (2 * PI))))
    /\ (Math.atan2 v u = PI -> k = (K - 1)%Z).
Proof.
  intros HK Ha Hr. pose proof PI_RGT_0 as Hpi.
  rewrite (getPolarIndex_in_range K M rmin rmax alpha u v Hr).
  eexists _, _. split; [reflexivity|].
  pose proof (atan2_range v u) as Hphi.
  destruct (angularWarp_bounds alpha Ha _ Hphi) as (Hw & Hstrict & Hth).
  set (w := angularWarp (Math.atan2 v u) alpha) in *.
  split.
  - intros Hlt. specialize (Hstrict Hlt).
    assert (Hth1 : (w + PI) / (2 * PI) < 1).
    { apply Rmult_lt_reg_r with (2 * PI); [lra|].
      unfold Rdiv. rewrite Rmult_assoc, Rinv_l by lra. lra. }
    split; [lra|].
    set (theta := (w + PI) / (2 * PI)) in *.
    assert (HKr : 1 <= IZR K) by (apply IZR_le; exact HK).
    assert (H0 : (0 <= Math.floor (IZR K * theta))%Z).
    { apply Zfloor_lub. simpl. nra. }
    assert (H1 : (Math.floor (IZR K * theta) < K)%Z).
    { apply lt_IZR. pose proof (Zfloor_bound (IZR K * theta)) as [Hb _].
      unfold Math.floor. nra. }
    lia.
  - intros Heq. subst w. rewrite Heq, (angularWarp_at_PI alpha Ha).
    replace (IZR K * ((PI + PI) / (2 * PI))) with (IZR K) by (field; lra).
    unfold Math.floor. rewrite ZfloorZ. lia.
Qed.

(** X3: at a larger angle the angular index is not smaller: for two
    in-range offsets with [atan2(v1, u1) <= atan2(v2, u2)], [K >= 0] and
    [alpha > 0], [k1 <= k2]. *)
Theorem getPolarIndex_angular_monotone
  (u1 v1 u2 v2 : num) (K M : Z) (rmin rmax alpha : R) :
  (0 <= K)%Z -> 0 < alpha ->
  rmin <= Math.hypot (val u1) (val v1) <= rmax ->
  rmin <= Math.hypot (val u2) (val v2) <= rmax ->
  Math.atan2 v1 u1 <= Math.atan2 v2 u2 ->
  exists k1 j1 k2 j2,
    getPolarIndex u1 v1 K M rmin rmax alpha = Some (k1, j1)
    /\ getPolarIndex u2 v2 K M rmin rmax alpha = Some (k2, j2)
    /\ (k1 <= k2)%Z.
Proof.
  intros HK Ha Hr1 Hr2 Hphi. pose proof PI_RGT_0 as Hpi.
  rewrite (getPolarIndex_in_range K M rmin rmax alpha u1 v1 Hr1).
  rewrite (getPolarIndex_in_range K M rmin rmax alpha u2 v2 Hr2).
  eexists _, _, _, _. split; [reflexivity|]. split; [reflexivity|].
  apply Z.min_le_compat_l, Z.max_le_compat_l.
  unfold Math.floor. apply Zfloor_le.
  apply Rmult_le_compat_l; [apply IZR_le; exact HK|].
  unfold Rdiv. apply Rmult_le_compat_r.
  { left. apply Rinv_0_lt_compat. lra. }
  apply Rplus_le_compat_r.
  destruct Hphi as [Hlt|Heq]; [|rewrite Heq; lra].
  left. apply angularWarp_increasing; assumption.
Qed.

Lemma logFactor_range (rmin rmax r : R) :
  0 < rmin -> rmin < rmax -> rmin <= r <= rmax ->
  0 <= Math.log (r / rmin) / Math.log (rmax / rmin) <= 1
  /\ (r < rmax -> Math.log (r / rmin) / Math.log (rmax / rmin) < 1)
  /\ (r = rmin -> Math.log (r / rmin) / Math.log (rmax / rmin) = 0)
  /\ (r = rmax -> Math.log (r / rmin) / Math.log (rmax / rmin) = 1).
Proof.
  intros Hmin Hlt [Hlo Hhi]. unfold Math.log.
  assert (Hinv : 0 < / rmin) by (apply Rinv_0_lt_compat; exact Hmin).
  assert (Hq1 : 1 <= r / rmin).
  { apply Rmult_le_reg_r with rmin; [exact Hmin|].
    unfold Rdiv. rewrite Rmult_assoc, Rinv_l by lra. lra. }
  assert (Hq2 : r / rmin <= rmax / rmin).
  { unfold Rdiv. apply Rmult_le_compat_r; lra. }
  assert (Hd : 0 < ln (rmax / rmin)).
  { rewrite <- ln_1. apply ln_increasing; [lra|].
    apply Rmult_lt_reg_r with rmin; [exact Hmin|].
    unfold Rdiv. rewrite Rmult_assoc, Rinv_l by lra. lra. }
  assert (Hn0 : 0 <= ln (r / rmin)).
  { destruct Hq1 as [Hq1|Hq1]; [|rewrite <- Hq1, ln_1; lra].
    left. rewrite <- ln_1. apply ln_increasing; lra. }
  assert (Hn1 : ln (r / rmin) <= ln (rmax / rmin)).
  { destruct Hq2 as [Hq2|Hq2]; [|rewrite Hq2; lra].
    left. apply ln_increasing; lra. }
  assert (Hdiv : forall a, a / ln (rmax / rmin) * ln (rmax / rmin) = a).
  { intros a. field. lra. }
  split; [split|split; [|split]].
  - apply Rmult_le_reg_r with (ln (rmax / rmin)); [exact Hd|].
    rewrite Hdiv. lra.
  - apply Rmult_le_reg_r with (ln (rmax / rmin)); [exact Hd|].
    rewrite Hdiv. lra.
  - intros Hr. apply Rmult_lt_reg_r with (ln (rmax / rmin)); [exact Hd|].
    rewrite Hdiv, Rmult_1_l. apply ln_increasing; [lra|].
    unfold Rdiv. apply Rmult_lt_compat_r; lra.
  - intros ->. replace (rmin / rmin) with 1 by (field; lra).
    rewrite ln_1. unfold Rdiv. ring.
  - intros ->. field. lra.
Qed.

(** X4: for [0 < rmin < rmax] and [M >= 1] the clamp of the radial index
    acts at the outer edge only: an offset at radius [r < rmax] gets
    [floor(M * logFactor)] with [0 <= logFactor < 1]; radius [rmin] gets bin
    0 and radius [rmax] gets the last bin [M - 1]. *)
Theorem getPolarIndex_radial_exact
  (u v : num) (K M : Z) (rmin rmax alpha : R) :
  (1 <= M)%Z -> 0 < rmin -> rmin < rmax ->
  rmin <= Math.hypot (val u) (val v) <= rmax ->
  exists k j,
    getPolarIndex u v K M rmin rmax alpha = Some (k, j)
    /\ (Math.hypot (val u) (val v) < rmax ->
        j = Math.floor
              (IZR M * (Math.log (Math.hypot (val u) (val v) / rmin)
                        / Math.log (rmax / rmin))))
    /\ (Math.hypot (val u) (val v) = rmin -> j = 0%Z)
    /\ (Math.hypot (val u) (val v) = rmax -> j = (M - 1)%Z).
Proof.
  intros HM Hmin Hlt Hr.
  rewrite (getPolarIndex_in_range K M rmin rmax alpha u v Hr).
  eexists _, _. split; [reflexivity|].
  destruct (logFactor_range rmin rmax _ Hmin Hlt Hr)
    as ([Hl0 Hl1] & Hstrict & Hat0 & Hat1).
  set (lf := Math.log (Math.hypot (val u) (val v) / rmin)
             / Math.log (rmax / rmin)) in *.
  assert (HMr : 1 <= IZR M) by (apply IZR_le; exact HM).
  split; [|split].
  - intros Hr'. specialize (Hstrict Hr').
    assert (H0 : (0 <= Math.floor (IZR M * lf))%Z).
    { apply Zfloor_lub. simpl. nra. }
    assert (H1 : (Math.floor (IZR M * lf) < M)%Z).
    { apply lt_IZR. pose proof (Zfloor_bound (IZR M * lf)) as [Hb _].
      unfold Math.floor. nra. }
    lia.
  - intros Hr'. rewrite (Hat0 Hr'), Rmult_0_r.
    unfold Math.floor. change 0 with (IZR 0). rewrite ZfloorZ. lia.
  - intros Hr'. rewrite (Hat1 Hr'), Rmult_1_r.
    unfold Math.floor. rewrite ZfloorZ. lia.
Qed.

(** *** Scale invariance *)

Lemma hypot_scale (c x y : R) :
  0 <= c -> Math.hypot (c * x) (c * y) = c * Math.hypot x y.
Proof.
  intros Hc. unfold Math.hypot.
  replace (c * x * (c * x) + c * y * (c * y)) with (c * c * (x * x + y * y))
    by ring.
  rewrite sqrt_mult by nra. rewrite sqrt_square by exact Hc. reflexivity.
Qed.

Lemma signbit_of_R_pos (c : R) : 0 < c -> signbit (of_R c) = false.
Proof.
  intros Hc. unfold signbit, of_R; simpl.
  destruct (Rlt_dec c 0); [lra|]. destruct (Rlt_dec 0 c); [reflexivity|lra].
Qed.

Lemma signbit_scale (c : R) (x : num) :
  0 < c -> signbit (Num.mul (of_R c) x) = signbit x.
Proof.
  intros Hc. unfold Num.mul. rewrite (signbit_of_R_pos c Hc). simpl xorb.
  unfold signbit at 1. cbn [val negz]. simpl val.
  unfold signbit.
  destruct (Rlt_dec (c * val x) 0), (Rlt_dec (val x) 0),
    (Rlt_dec 0 (c * val x)), (Rlt_dec 0 (val x));
    try reflexivity; nra.
Qed.

Lemma atan2_scale (c : R) (y x : num) :
  0 < c ->
  Math.atan2 (Num.mul (of_R c) y) (Num.mul (of_R c) x) = Math.atan2 y x.
Proof.
  intros Hc. unfold Math.atan2. rewrite !signbit_scale by exact Hc.
  simpl val.
  destruct (Rlt_dec 0 (val x)) as [Hx|Hx].
  { destruct (Rlt_dec 0 (c * val x)); [|nra].
    f_equal. field. lra. }
  destruct (Rlt_dec 0 (c * val x)); [nra|].
  destruct (Rlt_dec (val x) 0) as [Hx'|Hx'].
  { destruct (Rlt_dec (c * val x) 0); [|nra].
    replace (c * val y / (c * val x)) with (val y / val x) by (field; lra).
    reflexivity. }
  destruct (Rlt_dec (c * val x) 0); [nra|].
  destruct (Rlt_dec 0 (val y)), (Rlt_dec 0 (c * val y)); try nra;
    try reflexivity.
  destruct (Rlt_dec (val y) 0), (Rlt_dec (c * val y) 0); try nra;
    reflexivity.
Qed.

(** X5: the transform depends on lengths only through their ratio to
    [rmin]: scaling the offset, [rmin] and [rmax] by the same [c > 0] gives
    the same result (null or the same index pair). *)
Theorem getPolarIndex_scale_invariant
  (c : R) (u v : num) (K M : Z) (rmin rmax alpha : R) :
  0 < c -> rmin <> 0 ->
  getPolarIndex (Num.mul (of_R c) u) (Num.mul (of_R c) v) K M
    (c * rmin) (c * rmax) alpha
  = getPolarIndex u v K M rmin rmax alpha.
Proof.
  intros Hc Hmin. unfold getPolarIndex. simpl val.
  rewrite hypot_scale by lra. rewrite atan2_scale by exact Hc.
  set (r := Math.hypot (val u) (val v)).
  replace (c * r / (c * rmin)) with (r / rmin) by (field; lra).
  replace (c * rmax / (c * rmin)) with (rmax / rmin) by (field; lra).
  destruct (Rgt_dec (c * r) (c * rmax)), (Rgt_dec r rmax); try nra;
    try reflexivity.
  destruct (Rlt_dec (c * r) (c * rmin)), (Rlt_dec r rmin); try nra;
    reflexivity.
Qed.

(** *** The local frame *)



(* ===================================================================== *)
(** ** More on the grid accumulator *)

Lemma fold_left_invariant {A B : Type} (f : A -> B -> A) (P : A -> Prop)
  (l : list B) :
  (forall a b, P a -> P (f a b)) -> forall a, P a -> P (fold_left f l a).
Proof.
  intros Hstep. induction l as [|b l IH]; intros a Ha; simpl; [exact Ha|].
  apply IH, Hstep, Ha.
Qed.

Lemma splatToGrid_le_1 (cfg : Config) (grid : list R) (k j channel : Z)
  (w : R) :
  Forall (fun c => c <= 1) grid ->
  Forall (fun c => c <= 1) (splatToGrid cfg grid k j channel w).
Proof.
  intros Hall. unfold splatToGrid.
  destruct (flatIndex cfg k j channel <? 0)%Z; [exact Hall|].
  destruct (grid !! Z.to_nat (flatIndex cfg k j channel)); [|exact Hall].
  apply Forall_insert; [exact Hall|apply Rmin_l].
Qed.

(** A splat into channel [channel] leaves the cells of the other channels. *)
Lemma splatToGrid_other_channel (cfg : Config) (grid : list R)
  (k j channel : Z) (w : R) (i : nat) :
  (0 <= channel < CHANNELS cfg)%Z ->
  (Z.of_nat i mod CHANNELS cfg)%Z <> channel ->
  splatToGrid cfg grid k j channel w !! i = grid !! i.
Proof.
  intros Hch Hres.
  destruct (Z.ltb_spec (flatIndex cfg k j channel) 0) as [Hneg|Hpos].
  { unfold splatToGrid.
    destruct (Z.ltb_spec (flatIndex cfg k j channel) 0); [reflexivity|lia]. }
  apply splatToGrid_lookup_ne. intros ->. apply Hres.
  rewrite Z2Nat.id by exact Hpos. unfold flatIndex.
  rewrite Z.add_comm, Z.mod_add by lia. apply Z.mod_small. exact Hch.
Qed.

(** What one turn of the food loop can do. *)
Lemma foodStep_cases (cfg : Config) (mySnake : Snake) (grid : list R)
  (n : Z) (food : option Food) :
  foodStep cfg mySnake (grid, n) food = (grid, n)
  \/ foodStep cfg mySnake (grid, n) food = (grid, (n + 1)%Z)
  \/ exists k j w,
       foodStep cfg mySnake (grid, n) food
       = (splatToGrid cfg grid k j (CH_FOOD cfg) w, (n + 1)%Z).
Proof.
  unfold foodStep. destruct food as [f|]; [|auto].
  destruct (number (food_xx f)); [|auto].
  destruct (number (food_yy f)); [|auto].
  destruct (localOffset mySnake _ _) as [[u v]|]; [|auto].
  destruct (getPolarIndex u v _ _ _ _ _) as [[k j]|]; [|auto].
  right. right. eauto.
Qed.

Lemma fold_foodStep_count (cfg : Config) (mySnake : Snake)
  (foods : list (option Food)) :
  forall (grid : list R) (n : Z),
    (n <= (fold_left (foodStep cfg mySnake) foods (grid, n)).2
       <= n + Z.of_nat (length foods))%Z.
Proof.
  induction foods as [|food foods IH]; intros grid n;
    cbn [fold_left length]; [simpl; lia|].
  destruct (foodStep_cases cfg mySnake grid n food)
    as [->|[->|(k & j & w & ->)]].
  - specialize (IH grid n). lia.
  - specialize (IH grid (n + 1)%Z). lia.
  - specialize (IH (splatToGrid cfg grid k j (CH_FOOD cfg) w) (n + 1)%Z). lia.
Qed.

(** X7: [populateGridWithFood] keeps the length of the grid and the bound
    [<= 1] on its cells, counts at most one hit per entry of the food list,
    and writes into cells of the food channel only. *)
Theorem populateGridWithFood_invariants
  (cfg : Config) (win : Window) (grid : list R) (mySnake : Snake) :
  let '(grid', foodCount) := populateGridWithFood cfg win grid mySnake in
  length grid' = length grid
  /\ (Forall (fun c => c <= 1) grid -> Forall (fun c => c <= 1) grid')
  /\ (0 <= foodCount <= Z.of_nat (length (getAllFood win)))%Z
  /\ (forall i : nat,
        (0 <= CH_FOOD cfg < CHANNELS cfg)%Z ->
        (Z.of_nat i mod CHANNELS cfg)%Z <> CH_FOOD cfg ->
        grid' !! i = grid !! i).
Proof.
  pose proof (fold_foodStep_count cfg mySnake (getAllFood win) grid 0) as Hn.
  unfold populateGridWithFood in *.
  assert (Hinv :
    let acc := fold_left (foodStep cfg mySnake) (getAllFood win) (grid, 0%Z) in
    length acc.1 = length grid
    /\ (Forall (fun c => c <= 1) grid -> Forall (fun c => c <= 1) acc.1)
    /\ (forall i : nat,
          (0 <= CH_FOOD cfg < CHANNELS cfg)%Z ->
          (Z.of_nat i mod CHANNELS cfg)%Z <> CH_FOOD cfg ->
          acc.1 !! i = grid !! i)).
  { apply fold_left_invariant with
      (P := fun acc : list R * Z =>
              length acc.1 = length grid
              /\ (Forall (fun c => c <= 1) grid -> Forall (fun c => c <= 1) acc.1)
              /\ (forall i : nat,
                    (0 <= CH_FOOD cfg < CHANNELS cfg)%Z ->
                    (Z.of_nat i mod CHANNELS cfg)%Z <> CH_FOOD cfg ->
                    acc.1 !! i = grid !! i)); [|simpl; auto].
    intros [g n] food (Hlen & Hle & Hoff).
    destruct (foodStep_cases cfg mySnake g n food)
      as [->|[->|(k & j & w & ->)]]; simpl in *; [auto|auto|].
    split; [rewrite splatToGrid_length; exact Hlen|].
    split; [intros H; apply splatToGrid_le_1, Hle, H|].
    intros i Hch Hres.
    rewrite splatToGrid_other_channel by assumption. auto. }
  destruct (fold_left _ _ _) as [grid' foodCount]. simpl in *.
  destruct Hinv as (Hlen & Hle & Hoff).
  split; [exact Hlen|]. split; [exact Hle|]. split; [lia|exact Hoff].
Qed.

Lemma populateGridWithFood_shape
  (cfg : Config) (win : Window) (grid : list R) (mySnake : Snake) :
  length (populateGridWithFood cfg win grid mySnake).1 = length grid
  /\ (Forall (fun c => c <= 1) grid ->
      Forall (fun c => c <= 1) (populateGridWithFood cfg win grid mySnake).1).
Proof.
  unfold populateGridWithFood.
  apply fold_left_invariant with
    (P := fun acc : list R * Z =>
            length acc.1 = length grid
            /\ (Forall (fun c => c <= 1) grid -> Forall (fun c => c <= 1) acc.1));
    [|simpl; auto].
  intros [g n] food (Hlen & Hle).
  destruct (foodStep_cases cfg mySnake g n food)
    as [->|[->|(k & j & w & ->)]]; simpl in *; [auto|auto|].
  split; [rewrite splatToGrid_length; exact Hlen|].
  intros H. apply splatToGrid_le_1, Hle, H.
Qed.


(** What one turn of the segment loop keeps: the length and the bound of
    the grid, the cells outside the three body channels, and the order of the
    counters. *)
Lemma segmentStep_inv (cfg : Config) (mySnake snake : Snake)
  (g : list R) (c : SnakeData) (i : nat) (segment : option Point) :
  let '(g', c') := segmentStep cfg mySnake snake (g, c) i segment in
  length g' = length g
  /\ (Forall (fun x => x <= 1) g -> Forall (fun x => x <= 1) g')
  /\ (forall n : nat,
        (0 <= CH_ENEMY_BODY cfg < CHANNELS cfg)%Z ->
        (0 <= CH_MY_BODY cfg < CHANNELS cfg)%Z ->
        (0 <= CH_ENEMY_HEADS cfg < CHANNELS cfg)%Z ->
        (Z.of_nat n mod CHANNELS cfg)%Z <> CH_ENEMY_BODY cfg ->
        (Z.of_nat n mod CHANNELS cfg)%Z <> CH_MY_BODY cfg ->
        (Z.of_nat n mod CHANNELS cfg)%Z <> CH_ENEMY_HEADS cfg ->
        g' !! n = g !! n)
  /\ (mySegments c <= mySegments c')%Z
  /\ (enemySegments c <= enemySegments c')%Z
  /\ (enemyHeads c <= enemyHeads c')%Z
  /\ (enemyHeads c' - enemyHeads c <= enemySegments c' - enemySegments c)%Z
  /\ (enemyHeads c' <= enemyHeads c + (if Nat.eqb i 0 then 1 else 0))%Z
  /\ (mySegments c' + enemySegments c'
      <= mySegments c + enemySegments c + 1)%Z
  /\ (Nat.eqb (snake_ref snake) (snake_ref mySnake) = false ->
      mySegments c' = mySegments c).
Proof.
  unfold segmentStep.
  destruct segment as [p|]; [|repeat split; auto; try lia; destruct (Nat.eqb i 0); lia].
  destruct (number (pt_xx p));
    [|repeat split; auto; try lia; destruct (Nat.eqb i 0); lia].
  destruct (number (pt_yy p));
    [|repeat split; auto; try lia; destruct (Nat.eqb i 0); lia].
  destruct (localOffset mySnake _ _) as [[u v]|].
  - destruct (getPolarIndex u v _ _ _ _ _) as [[k j]|];
      [|repeat split; auto; try lia; destruct (Nat.eqb i 0); lia].
    destruct (Nat.eqb (snake_ref snake) (snake_ref mySnake)) eqn:Hme;
      [|destruct (Nat.eqb i 0)]; simpl;
      rewrite ?splatToGrid_length;
      (split; [reflexivity|]);
      (split; [intros H; repeat apply splatToGrid_le_1; exact H|]);
      (split;
       [intros ? ? ? ? ? ? ?;
        rewrite ?splatToGrid_other_channel by assumption; reflexivity|]);
      repeat split; try lia; try discriminate;
      destruct (Nat.eqb i 0); lia.
  - destruct (Nat.eqb (snake_ref snake) (snake_ref mySnake)) eqn:Hme;
      [|destruct (Nat.eqb i 0) eqn:Hi]; simpl;
      repeat split; auto; try lia; try discriminate;
      destruct (Nat.eqb i 0); lia.
Qed.

Lemma segmentsLoop_inv (cfg : Config) (mySnake snake : Snake)
  (segments : list (option Point)) :
  forall (g : list R) (c : SnakeData) (i : nat),
    let '(g', c') := segmentsLoop cfg mySnake snake (g, c) i segments in
    length g' = length g
    /\ (Forall (fun x => x <= 1) g -> Forall (fun x => x <= 1) g')
    /\ (forall n : nat,
          (0 <= CH_ENEMY_BODY cfg < CHANNELS cfg)%Z ->
          (0 <= CH_MY_BODY cfg < CHANNELS cfg)%Z ->
          (0 <= CH_ENEMY_HEADS cfg < CHANNELS cfg)%Z ->
          (Z.of_nat n mod CHANNELS cfg)%Z <> CH_ENEMY_BODY cfg ->
          (Z.of_nat n mod CHANNELS cfg)%Z <> CH_MY_BODY cfg ->
          (Z.of_nat n mod CHANNELS cfg)%Z <> CH_ENEMY_HEADS cfg ->
          g' !! n = g !! n)
    /\ (mySegments c <= mySegments c')%Z
    /\ (enemySegments c <= enemySegments c')%Z
    /\ (enemyHeads c <= enemyHeads c')%Z
    /\ (enemyHeads c' - enemyHeads c <= enemySegments c' - enemySegments c)%Z
    /\ (enemyHeads c' <= enemyHeads c + (if Nat.eqb i 0 then 1 else 0))%Z
    /\ (mySegments c' + enemySegments c'
        <= mySegments c + enemySegments c + Z.of_nat (length segments))%Z
    /\ (Nat.eqb (snake_ref snake) (snake_ref mySnake) = false ->
        mySegments c' = mySegments c).
Proof.
  induction segments as [|segment rest IH]; intros g c i;
    cbn [segmentsLoop length].
  { repeat split; auto; try lia. destruct (Nat.eqb i 0); lia. }
  pose proof (segmentStep_inv cfg mySnake snake g c i segment) as H1.
  destruct (segmentStep cfg mySnake snake (g, c) i segment) as [g1 c1].
  specialize (IH g1 c1 (S i)).
  destruct (segmentsLoop cfg mySnake snake (g1, c1) (S i) rest) as [g2 c2].
  destruct H1 as (L1 & B1 & O1 & M1 & E1 & Hd1 & D1 & I1 & T1 & N1).
  destruct IH as (L2 & B2 & O2 & M2 & E2 & Hd2 & D2 & I2 & T2 & N2).
  cbn in I2.
  split; [congruence|]. split; [auto|].
  split; [intros n A1 A2 A3 R1 R2 R3; rewrite O2, O1 by assumption; reflexivity|].
  split; [lia|]. split; [lia|]. split; [lia|]. split; [lia|].
  split; [revert I1; destruct (Nat.eqb i 0); intros I1; lia|]. split; [lia|].
  intros Hme. rewrite N2, N1 by exact Hme. reflexivity.
Qed.

Lemma snakeStep_inv (cfg : Config) (mySnake : Snake) (g : list R)
  (c : SnakeData) (snake : option Snake) :
  let '(g', c') := snakeStep cfg mySnake (g, c) snake in
  length g' = length g
  /\ (Forall (fun x => x <= 1) g -> Forall (fun x => x <= 1) g')
  /\ (forall n : nat,
        (0 <= CH_ENEMY_BODY cfg < CHANNELS cfg)%Z ->
        (0 <= CH_MY_BODY cfg < CHANNELS cfg)%Z ->
        (0 <= CH_ENEMY_HEADS cfg < CHANNELS cfg)%Z ->
        (Z.of_nat n mod CHANNELS cfg)%Z <> CH_ENEMY_BODY cfg ->
        (Z.of_nat n mod CHANNELS cfg)%Z <> CH_MY_BODY cfg ->
        (Z.of_nat n mod CHANNELS cfg)%Z <> CH_ENEMY_HEADS cfg ->
        g' !! n = g !! n)
  /\ (mySegments c <= mySegments c')%Z
  /\ (enemySegments c <= enemySegments c')%Z
  /\ (enemyHeads c <= enemyHeads c' <= enemyHeads c + 1)%Z
  /\ (enemyHeads c' - enemyHeads c <= enemySegments c' - enemySegments c)%Z
  /\ (match snake with
      | Some s =>
          Nat.eqb (snake_ref s) (snake_ref mySnake) = false ->
          mySegments c' = mySegments c
      | None => mySegments c' = mySegments c
      end).
Proof.
  unfold snakeStep. destruct snake as [s|]; [|repeat split; auto; lia].
  destruct (snake_pts s) as [segments|]; [|repeat split; auto; lia].
  pose proof (segmentsLoop_inv cfg mySnake s segments g c 0%nat) as H.
  destruct (segmentsLoop cfg mySnake s (g, c) 0 segments) as [g' c'].
  cbn in H.
  destruct H as (L & B & O & M1 & E & Hd & D & I & T & N).
  repeat split; auto; lia.
Qed.

(** X9: [populateGridWithSnakes] keeps the length of the grid and the bound
    [<= 1] on its cells and writes into cells of the three body channels
    only; it counts at most one head per snake of the list and never more
    heads than enemy segments; and it counts no segment as the observer's
    when no snake of the list is the observer's object. *)
Theorem populateGridWithSnakes_invariants
  (cfg : Config) (win : Window) (grid : list R) (mySnake : Snake) :
  let '(grid', counts) := populateGridWithSnakes cfg win grid mySnake in
  length grid' = length grid
  /\ (Forall (fun x => x <= 1) grid -> Forall (fun x => x <= 1) grid')
  /\ (forall n : nat,
        (0 <= CH_ENEMY_BODY cfg < CHANNELS cfg)%Z ->
        (0 <= CH_MY_BODY cfg < CHANNELS cfg)%Z ->
        (0 <= CH_ENEMY_HEADS cfg < CHANNELS cfg)%Z ->
        (Z.of_nat n mod CHANNELS cfg)%Z <> CH_ENEMY_BODY cfg ->
        (Z.of_nat n mod CHANNELS cfg)%Z <> CH_MY_BODY cfg ->
        (Z.of_nat n mod CHANNELS cfg)%Z <> CH_ENEMY_HEADS cfg ->
        grid' !! n = grid !! n)
  /\ (0 <= mySegments counts)%Z
  /\ (0 <= enemyHeads counts <= enemySegments counts)%Z
  /\ (enemyHeads counts <= Z.of_nat (length (getAllSnakes win)))%Z
  /\ (Forall (fun snake =>
                match snake with
                | Some s => Nat.eqb (snake_ref s) (snake_ref mySnake) = false
                | None => True
                end) (getAllSnakes win) ->
      mySegments counts = 0%Z).
Proof.
  unfold populateGridWithSnakes.
  set (c0 := {| enemySegments := 0; mySegments := 0; enemyHeads := 0 |}).
  assert (Hgen : forall (snakes : list (option Snake)) (g : list R)
                   (c : SnakeData),
    let '(g', c') := fold_left (snakeStep cfg mySnake) snakes (g, c) in
    length g' = length g
    /\ (Forall (fun x => x <= 1) g -> Forall (fun x => x <= 1) g')
    /\ (forall n : nat,
          (0 <= CH_ENEMY_BODY cfg < CHANNELS cfg)%Z ->
          (0 <= CH_MY_BODY cfg < CHANNELS cfg)%Z ->
          (0 <= CH_ENEMY_HEADS cfg < CHANNELS cfg)%Z ->
          (Z.of_nat n mod CHANNELS cfg)%Z <> CH_ENEMY_BODY cfg ->
          (Z.of_nat n mod CHANNELS cfg)%Z <> CH_MY_BODY cfg ->
          (Z.of_nat n mod CHANNELS cfg)%Z <> CH_ENEMY_HEADS cfg ->
          g' !! n = g !! n)
    /\ (mySegments c <= mySegments c')%Z
    /\ (enemySegments c <= enemySegments c')%Z
    /\ (enemyHeads c <= enemyHeads c'
        <= enemyHeads c + Z.of_nat (length snakes))%Z
    /\ (enemyHeads c' - enemyHeads c
        <= enemySegments c' - enemySegments c)%Z
    /\ (Forall (fun snake =>
                  match snake with
                  | Some s => Nat.eqb (snake_ref s) (snake_ref mySnake) = false
                  | None => True
                  end) snakes ->
        mySegments c' = mySegments c)).
  { induction snakes as [|snake rest IH]; intros g c; cbn [fold_left length].
    { repeat split; auto; lia. }
    pose proof (snakeStep_inv cfg mySnake g c snake) as H1.
    destruct (snakeStep cfg mySnake (g, c) snake) as [g1 c1].
    specialize (IH g1 c1).
    destruct (fold_left (snakeStep cfg mySnake) rest (g1, c1)) as [g2 c2].
    destruct H1 as (L1 & B1 & O1 & M1 & E1 & Hd1 & D1 & N1).
    destruct IH as (L2 & B2 & O2 & M2 & E2 & Hd2 & D2 & N2).
    split; [congruence|]. split; [auto|].
    split; [intros n A1 A2 A3 R1 R2 R3; rewrite O2, O1 by assumption;
            reflexivity|].
    repeat split; try lia.
    intros Hall. apply Forall_cons in Hall as [Hs Hrest].
    rewrite (N2 Hrest). destruct snake as [s|]; auto. }
  specialize (Hgen (getAllSnakes win) grid c0).
  destruct (fold_left _ _ _) as [grid' counts].
  destruct Hgen as (L & B & O & M1 & E & Hd & D & N).
  simpl in M1, E, Hd, D, N.
  repeat split; auto; lia.
Qed.

(* ===================================================================== *)
(** ** More on the adaptive normaliser *)

Section NormaliserInvariants.

Variable cfg : Config.

Local Abbreviation beta := (EMA_BETA cfg).
Local Abbreviation sat := (SATURATION_FACTOR cfg).

Lemma normalizeCell_length (st : list R * list R) (i : nat) :
  length (normalizeCell cfg st i).1 = length st.1
  /\ length (normalizeCell cfg st i).2 = length st.2.
Proof.
  destruct st as [grid ema]. unfold normalizeCell. simpl.
  destruct (grid !! i); [|done]. destruct (ema !! i); [|done].
  destruct (Rlt_dec 0 _); simpl; rewrite ?length_insert; done.
Qed.

Lemma normalizeCell_unit (st : list R * list R) (i : nat) :
  0 <= beta <= 1 -> 0 < sat ->
  Forall (fun x => 0 <= x <= 1) st.1 /\ Forall (fun x => 0 <= x <= 1) st.2 ->
  Forall (fun x => 0 <= x <= 1) (normalizeCell cfg st i).1
  /\ Forall (fun x => 0 <= x <= 1) (normalizeCell cfg st i).2.
Proof.
  intros Hb Hs. destruct st as [grid ema]. simpl. intros [Hg He].
  unfold normalizeCell.
  destruct (grid !! i) as [g|] eqn:Hgi; [|done].
  destruct (ema !! i) as [e|] eqn:Hei; [|done].
  pose proof (Forall_lookup_1 _ _ _ _ Hg Hgi) as Hg01. simpl in Hg01.
  pose proof (Forall_lookup_1 _ _ _ _ He Hei) as He01. simpl in He01.
  assert (He' : 0 <= beta * e + (1 - beta) * g <= 1) by nra.
  destruct (Rlt_dec 0 _) as [Hpos|Hnpos]; simpl.
  - split; (apply Forall_insert; [assumption|]); [|exact He'].
    split; [|apply Rmin_l].
    apply Rmin_glb; [lra|].
    apply Rmult_le_pos; [lra|].
    left. apply Rinv_0_lt_compat. apply Rmult_lt_0_compat; assumption.
  - split; [exact Hg|]. apply Forall_insert; assumption.
Qed.

Lemma fold_normalizeCell_outside (idxs : list nat) (i : nat) :
  forall st : list R * list R,
    (length st.2 <= i)%nat ->
    (fold_left (normalizeCell cfg) idxs st).1 !! i = st.1 !! i.
Proof.
  induction idxs as [|a idxs IH]; intros st Hi; simpl; [done|].
  rewrite IH by (rewrite (proj2 (normalizeCell_length st a)); exact Hi).
  destruct st as [grid ema]. unfold normalizeCell. simpl in *.
  destruct (grid !! a) as [g|]; [|done].
  destruct (ema !! a) as [e|] eqn:Hea; [|done].
  assert (a < length ema)%nat by (apply lookup_lt_is_Some; eauto).
  destruct (Rlt_dec 0 _); simpl; [|done].
  apply list_lookup_insert_ne. lia.
Qed.

(** X10: with [0 <= beta <= 1] and a positive saturation factor,
    [normalizeGrid] keeps the lengths of both arrays and keeps every cell of
    the grid and of the EMA array within [[0, 1]]. *)
Theorem normalizeGrid_unit_interval (grid ema : list R) :
  0 <= beta <= 1 -> 0 < sat ->
  Forall (fun x => 0 <= x <= 1) grid ->
  Forall (fun x => 0 <= x <= 1) ema ->
  exists grid' ema',
    normalizeGrid cfg grid (Some ema) = inr (grid', Some ema')
    /\ length grid' = length grid
    /\ length ema' = length ema
    /\ Forall (fun x => 0 <= x <= 1) grid'
    /\ Forall (fun x => 0 <= x <= 1) ema'.
Proof.
  intros Hb Hs Hg He. unfold normalizeGrid.
  assert (Hinv :
    let st := fold_left (normalizeCell cfg) (seq 0 (length grid)) (grid, ema) in
    (length st.1 = length grid /\ length st.2 = length ema)
    /\ Forall (fun x => 0 <= x <= 1) st.1
    /\ Forall (fun x => 0 <= x <= 1) st.2).
  { apply fold_left_invariant with
      (P := fun st : list R * list R =>
              (length st.1 = length grid /\ length st.2 = length ema)
              /\ Forall (fun x => 0 <= x <= 1) st.1
              /\ Forall (fun x => 0 <= x <= 1) st.2); [|simpl; auto].
    intros st i [[L1 L2] Hu].
    destruct (normalizeCell_length st i) as [-> ->].
    split; [auto|]. apply normalizeCell_unit; assumption. }
  destruct (fold_left _ _ _) as [grid' ema']. simpl in Hinv.
  destruct Hinv as ([L1 L2] & U1 & U2).
  exists grid', ema'. auto.
Qed.

Lemma normalizeGrid_shape (grid ema : list R) :
  exists grid' ema',
    normalizeGrid cfg grid (Some ema) = inr (grid', Some ema')
    /\ length grid' = length grid
    /\ length ema' = length ema
    /\ (Forall (fun x => x <= 1) grid -> Forall (fun x => x <= 1) grid').
Proof.
  unfold normalizeGrid.
  assert (Hinv :
    let st := fold_left (normalizeCell cfg) (seq 0 (length grid)) (grid, ema) in
    (length st.1 = length grid /\ length st.2 = length ema)
    /\ (Forall (fun x => x <= 1) grid -> Forall (fun x => x <= 1) st.1)).
  { apply fold_left_invariant with
      (P := fun st : list R * list R =>
              (length st.1 = length grid /\ length st.2 = length ema)
              /\ (Forall (fun x => x <= 1) grid
                  -> Forall (fun x => x <= 1) st.1)); [|simpl; auto].
    intros st i [[L1 L2] Hle].
    destruct (normalizeCell_length st i) as [E1 E2].
    split; [rewrite E1, E2; auto|].
    intros H. specialize (Hle H). destruct st as [g e].
    unfold normalizeCell. simpl in *.
    destruct (g !! i); [|exact Hle]. destruct (e !! i); [|exact Hle].
    destruct (Rlt_dec 0 _); simpl; [|exact Hle].
    apply Forall_insert; [exact Hle|apply Rmin_l]. }
  destruct (fold_left _ _ _) as [grid' ema']. simpl in *.
  destruct Hinv as ([L1 L2] & Hle).
  exists grid', ema'. repeat split; auto.
Qed.

(** X11: for a saturation factor other than 0, [normalizeGrid] with an EMA
    array shorter than the grid normalises the cells the EMA array covers
    and leaves the others raw; both arrays keep their lengths, and the cells
    of the grid stay [<= 1]. *)
Theorem normalizeGrid_short_ema (grid ema : list R) :
  sat <> 0 ->
  exists grid' ema',
    normalizeGrid cfg grid (Some ema) = inr (grid', Some ema')
    /\ length grid' = length grid
    /\ length ema' = length ema
    /\ (forall i : nat, (length ema <= i)%nat -> grid' !! i = grid !! i)
    /\ (Forall (fun x => x <= 1) grid -> Forall (fun x => x <= 1) grid').
Proof.
  intros _.
  destruct (normalizeGrid_shape grid ema)
    as (grid' & ema' & Hrun & L1 & L2 & Hle).
  exists grid', ema'. split; [exact Hrun|].
  split; [exact L1|]. split; [exact L2|]. split; [|exact Hle].
  intros i Hi.
  pose proof (fold_normalizeCell_outside (seq 0 (length grid)) i (grid, ema) Hi)
    as Hout.
  unfold normalizeGrid in Hrun.
  destruct (fold_left _ _ _) as [g1 e1]. simpl in Hout.
  injection Hrun as <- <-. exact Hout.
Qed.

(** X12: for a saturation factor other than 0, normalisation keeps the
    support of the grid: a raw cell equal to 0 is sent as 0, and for
    [0 <= beta < 1], a positive saturation factor and a nonnegative EMA cell
    a positive raw cell is sent as a positive value, at most 1. *)
Theorem normalizeGrid_keeps_support (grid ema : list R) (i : nat) (g e : R) :
  sat <> 0 ->
  grid !! i = Some g -> ema !! i = Some e ->
  exists grid' ema' out,
    normalizeGrid cfg grid (Some ema) = inr (grid', Some ema')
    /\ grid' !! i = Some out
    /\ (g = 0 -> out = 0)
    /\ (0 <= beta < 1 -> 0 < sat -> 0 <= e -> 0 < g -> 0 < out <= 1).
Proof.
  intros Hsat Hg He.
  destruct (normalizeGrid_lookup cfg grid ema i g e Hg He)
    as (grid' & ema' & Hrun & _ & Hout).
  exists grid', ema'. eexists. split; [exact Hrun|]. split; [exact Hout|].
  split.
  - intros ->. destruct (Rlt_dec 0 _) as [Hpos|_]; [|reflexivity].
    assert (Hden : sat * (beta * e + (1 - beta) * 0) <> 0).
    { apply Rmult_integral_contrapositive_currified; [exact Hsat|lra]. }
    unfold Rdiv. rewrite Rmult_0_l. apply Rmin_right. lra.
  - intros Hb Hs He0 Hg0.
    assert (He' : 0 < beta * e + (1 - beta) * g) by nra.
    destruct (Rlt_dec 0 _); [|lra].
    split; [|apply Rmin_l].
    apply Rmin_glb_lt; [lra|].
    apply Rdiv_lt_0_compat; [exact Hg0|].
    apply Rmult_lt_0_compat; assumption.
Qed.


End NormaliserInvariants.

Lemma populateGridWithSnakes_shape
  (cfg : Config) (win : Window) (grid : list R) (mySnake : Snake) :
  length (populateGridWithSnakes cfg win grid mySnake).1 = length grid
  /\ (Forall (fun c => c <= 1) grid ->
      Forall (fun c => c <= 1) (populateGridWithSnakes cfg win grid mySnake).1).
Proof.
  unfold populateGridWithSnakes.
  apply fold_left_invariant with
    (P := fun acc : list R * SnakeData =>
            length acc.1 = length grid
            /\ (Forall (fun c => c <= 1) grid -> Forall (fun c => c <= 1) acc.1));
    [|simpl; auto].
  intros [g c] snake (Hlen & Hle).
  pose proof (snakeStep_inv cfg mySnake g c snake) as H.
  destruct (snakeStep cfg mySnake (g, c) snake) as [g' c'].
  destruct H as (L & B & _). simpl in *.
  split; [congruence|auto].
Qed.

(* ===================================================================== *)
(** ** More on the sampling scheduler *)

Lemma truthy_number (v : value) :
  truthy v = true -> exists x : num, v = VNum x /\ val x <> 0.
Proof.
  destruct v as [| |x]; simpl; try discriminate.
  destruct (Req_dec_T (val x) 0); [discriminate|]. eauto.
Qed.

Lemma truthy_nonzero (x : num) : val x <> 0 -> truthy (VNum x) = true.
Proof.
  intros Hx. simpl. destruct (Req_dec_T (val x) 0); [contradiction|reflexivity].
Qed.

Lemma hypot_nonneg (x y : R) : 0 <= Math.hypot x y.
Proof. unfold Math.hypot. apply sqrt_pos. Qed.

(** X14: the pointing direction [capturePlayerInput] returns lies in the
    unit disc, its boost flag is 1 exactly when the script is boosting, and
    the screen centre it divides by is never 0 (a zero or missing screen size
    is replaced by 800 or 600). *)
Theorem capturePlayerInput_unit_disc
  (win : Window) (st : State) (mySnake : Snake) :
  let p := capturePlayerInput win st mySnake in
  mx p * mx p + my p * my p <= 1
  /\ (input_boost p = if isBoosting (samplingState st) then 1%Z else 0%Z)
  /\ screenWidth (getMousePosition win) / 2 <> 0
  /\ screenHeight (getMousePosition win) / 2 <> 0.
Proof.
  simpl. split; [|split; [reflexivity|]].
  - match goal with
    | |- ?a / Rmax 1 (Math.hypot ?a ?b) * _ + _ <= 1 =>
        set (p := a); set (q := b)
    end.
    set (h := Math.hypot p q).
    assert (Hh : 0 <= h) by apply hypot_nonneg.
    assert (Hh2 : h * h = p * p + q * q).
    { unfold h, Math.hypot. apply sqrt_sqrt. nra. }
    set (n := Rmax 1 h).
    assert (Hn1 : 1 <= n) by apply Rmax_l.
    assert (Hnh : h <= n) by apply Rmax_r.
    assert (Hnn : p * p + q * q <= n * n) by nra.
    replace (p / n * (p / n) + q / n * (q / n))
      with ((p * p + q * q) / (n * n)) by (field; lra).
    apply Rmult_le_reg_r with (n * n); [nra|].
    unfold Rdiv. rewrite Rmult_assoc, Rinv_l by nra. lra.
  - assert (Hd : forall v d, d <> 0 -> orDefault v d / 2 <> 0).
    { intros v d Hd. unfold orDefault. destruct v as [| |x]; try lra.
      destruct (Req_dec_T (val x) 0); lra. }
    split; apply Hd; lra.
Qed.

(** What a tick with an available position does, when the grid can be
    allocated and the EMA array is there. *)
Lemma sampleGameState_frame (win : Window) (now : R) (st : State)
  (mySnake : Snake) (x y : num) (ema : list R) :
  isCollecting (samplingState st) = true ->
  getMySnake win = Some mySnake ->
  snake_xx mySnake = VNum x -> val x <> 0 ->
  snake_yy mySnake = VNum y -> val y <> 0 ->
  (0 <= gridLength (CONFIG st))%Z ->
  emaChannels (samplingState st) = Some ema ->
  exists (f : Frame) (st' : State) (ema' : list R),
    sampleGameState win now st = (st', [SLITHER_DATA_FRAME f])
    /\ length (grid f) = Z.to_nat (gridLength (CONFIG st))
    /\ Forall (fun c => c <= 1) (grid f)
    /\ frameIndex f = (frameCount (gameState st) + 1)%Z
    /\ frame_sessionId f = sessionId (gameState st)
    /\ timestamp f = now
    /\ 0 <= velocity (metadata f)
    /\ (previousPosition (samplingState st) = None ->
        velocity (metadata f) = 0)
    /\ 0 <= distanceToBorder (metadata f)
    /\ boost (metadata f) = isBoosting (samplingState st)
    /\ input_boost (playerInput f)
       = (if isBoosting (samplingState st) then 1%Z else 0%Z)
    /\ emaChannels (samplingState st') = Some ema'
    /\ length ema' = length ema
    /\ previousPosition (samplingState st') = Some (x, y)
    /\ lastSampleTime (samplingState st') = now
    /\ frameCount (gameState st') = (frameCount (gameState st) + 1)%Z
    /\ validFrames (gameState st') = (validFrames (gameState st) + 1)%Z
    /\ errors (gameState st') = errors (gameState st)
    /\ CONFIG st' = CONFIG st.
Proof.
  intros Hcoll Hsnake Hx Hx0 Hy Hy0 Hlen Hema.
  unfold sampleGameState. rewrite Hcoll, Hsnake. simpl negb. cbv iota.
  rewrite Hx, Hy, (truthy_nonzero x Hx0), (truthy_nonzero y Hy0).
  simpl negb. simpl orb. cbv iota. simpl number. cbv iota.
  unfold createPolarGrid, newFloat32Array. simpl CONFIG.
  destruct (Z.ltb_spec (gridLength (CONFIG st)) 0) as [Hneg|_]; [lia|].
  set (grid0 := replicate (Z.to_nat (gridLength (CONFIG st))) 0).
  assert (Hg0 : length grid0 = Z.to_nat (gridLength (CONFIG st))
                /\ Forall (fun c => c <= 1) grid0).
  { split; [apply length_replicate|].
    apply Forall_replicate. lra. }
  destruct Hg0 as [Hl0 Hb0].
  destruct (populateGridWithFood_shape (CONFIG st) win grid0 mySnake)
    as [Hl1 Hb1].
  destruct (populateGridWithFood (CONFIG st) win grid0 mySnake)
    as [grid1 foodCount]. simpl in Hl1, Hb1.
  destruct (populateGridWithSnakes_shape (CONFIG st) win grid1 mySnake)
    as [Hl2 Hb2].
  destruct (populateGridWithSnakes (CONFIG st) win grid1 mySnake)
    as [grid2 snakeData]. simpl in Hl2, Hb2.
  simpl emaChannels. rewrite Hema.
  destruct (normalizeGrid_shape (CONFIG st) grid2 ema)
    as (grid3 & ema' & Hrun & Hl3 & Hle & Hb3).
  rewrite Hrun.
  eexists _, _, ema'. split; [reflexivity|]. simpl.
  split; [congruence|]. split; [auto|].
  split; [reflexivity|]. split; [reflexivity|]. split; [reflexivity|].
  split.
  { destruct (previousPosition (samplingState st)) as [[px py]|]; [|lra].
    destruct (Rlt_dec 0 _) as [Hdt|_]; [|lra].
    apply Rmult_le_pos; [apply hypot_nonneg|].
    left. apply Rinv_0_lt_compat. exact Hdt. }
  split; [intros ->; reflexivity|].
  split; [apply Rmax_l|].
  repeat split; auto.
Qed.

(** The three ways a tick can go while collecting. *)
Lemma sampleGameState_cases (win : Window) (now : R) (st : State) :
  isCollecting (samplingState st) = true ->
  let '(st', posted) := sampleGameState win now st in
  (CONFIG st' = CONFIG st
   /\ frameCount (gameState st') = (frameCount (gameState st) + 1)%Z
   /\ sessionId (gameState st') = sessionId (gameState st)
   /\ isActive (gameState st') = isActive (gameState st)
   /\ gameRadius (gameState st') = gameRadius (gameState st)
   /\ isCollecting (samplingState st') = true
   /\ samplingInterval (samplingState st') = samplingInterval (samplingState st)
   /\ isBoosting (samplingState st') = isBoosting (samplingState st)
   /\ (is_Some (emaChannels (samplingState st)) ->
       is_Some (emaChannels (samplingState st'))))
  /\ ((posted = []
       /\ validFrames (gameState st') = validFrames (gameState st)
       /\ errors (gameState st') = errors (gameState st)
       /\ samplingState st' = samplingState st
       /\ (getMySnake win = None
           \/ exists s, getMySnake win = Some s
                /\ (truthy (snake_xx s) = false
                    \/ truthy (snake_yy s) = false)))
      \/ (exists f : Frame,
            posted = [SLITHER_DATA_FRAME f]
            /\ frameIndex f = (frameCount (gameState st) + 1)%Z
            /\ validFrames (gameState st')
               = (validFrames (gameState st) + 1)%Z
            /\ errors (gameState st') = errors (gameState st)
            /\ lastSampleTime (samplingState st') = now)
      \/ (exists e : Error,
            posted = [SLITHER_ERROR e]
            /\ validFrames (gameState st') = validFrames (gameState st)
            /\ errors (gameState st') = (errors (gameState st) + 1)%Z
            /\ emaChannels (samplingState st')
               = emaChannels (samplingState st)
            /\ ((gridLength (CONFIG st) < 0)%Z
                \/ emaChannels (samplingState st) = None))).
Proof.
  intros Hcoll. unfold sampleGameState. rewrite Hcoll. simpl negb. cbv iota.
  destruct (getMySnake win) as [mySnake|] eqn:Hsnake.
  2:{ simpl. split; [repeat split; auto|]. left. repeat split; auto. }
  destruct (truthy (snake_xx mySnake)) eqn:Htx.
  2:{ simpl. split; [repeat split; auto|]. left. repeat split; eauto. }
  destruct (truthy (snake_yy mySnake)) eqn:Hty.
  2:{ simpl. split; [repeat split; auto|]. left. repeat split; eauto. }
  destruct (truthy_number _ Htx) as (x & Hx & _).
  destruct (truthy_number _ Hty) as (y & Hy & _).
  rewrite Hx, Hy. simpl negb. simpl orb. cbv iota. simpl number. cbv iota.
  unfold createPolarGrid, newFloat32Array. simpl CONFIG.
  destruct (Z.ltb_spec (gridLength (CONFIG st)) 0) as [Hneg|Hpos].
  { simpl. split; [repeat split; auto|]. right. right.
    exists RangeError. repeat split; auto. }
  destruct (populateGridWithFood _ _ _ _) as [grid1 foodCount].
  destruct (populateGridWithSnakes _ _ _ _) as [grid2 snakeData].
  simpl emaChannels.
  destruct (emaChannels (samplingState st)) as [ema|] eqn:Hema.
  - destruct (normalizeGrid_shape (CONFIG st) grid2 ema)
      as (grid3 & ema' & Hrun & _).
    rewrite Hrun. simpl. split; [repeat split; eauto|].
    right. left. eexists. repeat split; reflexivity.
  - unfold normalizeGrid. destruct grid2 as [|c0 grid2].
    + simpl. split.
      { repeat split; auto; try (intros [? ?]; discriminate). }
      right. left. eexists. repeat split; reflexivity.
    + simpl. split.
      { repeat split; auto; try (intros [? ?]; discriminate). }
      right. right. exists TypeError. repeat split; auto.
Qed.

(** X15: a tick while collecting, with the observer at truthy coordinates,
    a valid grid length, a saturation factor other than 0 and the EMA array
    in place, posts exactly one data frame: its grid has [A*R*C] cells, all
    [<= 1]; its index is the new frame
    counter; velocity and distance to the border are nonnegative, and the
    velocity is 0 when there is no previous position.  The EMA array keeps
    its length and no error is counted. *)
Theorem sampleGameState_emits_frame (win : Window) (now : R) (st : State)
  (mySnake : Snake) (ema : list R) :
  isCollecting (samplingState st) = true ->
  getMySnake win = Some mySnake ->
  truthy (snake_xx mySnake) = true -> truthy (snake_yy mySnake) = true ->
  (0 <= gridLength (CONFIG st))%Z ->
  SATURATION_FACTOR (CONFIG st) <> 0 ->
  emaChannels (samplingState st) = Some ema ->
  exists (f : Frame) (st' : State) (ema' : list R),
    sampleGameState win now st = (st', [SLITHER_DATA_FRAME f])
    /\ length (grid f) = Z.to_nat (gridLength (CONFIG st))
    /\ Forall (fun c => c <= 1) (grid f)
    /\ frameIndex f = frameCount (gameState st')
    /\ frame_sessionId f = sessionId (gameState st)
    /\ 0 <= velocity (metadata f)
    /\ (previousPosition (samplingState st) = None ->
        velocity (metadata f) = 0)
    /\ 0 <= distanceToBorder (metadata f)
    /\ emaChannels (samplingState st') = Some ema'
    /\ length ema' = length ema
    /\ validFrames (gameState st') = (validFrames (gameState st) + 1)%Z
    /\ errors (gameState st') = errors (gameState st).
Proof.
  intros Hcoll Hsnake Htx Hty Hlen _ Hema.
  destruct (truthy_number _ Htx) as (x & Hx & Hx0).
  destruct (truthy_number _ Hty) as (y & Hy & Hy0).
  destruct (sampleGameState_frame win now st mySnake x y ema
              Hcoll Hsnake Hx Hx0 Hy Hy0 Hlen Hema)
    as (f & st' & ema' & Hrun & Hgl & Hgb & Hfi & Hsid & _ & Hv & Hv0 & Hd
        & _ & _ & He' & Hel & _ & _ & Hfc & Hvf & Her & _).
  exists f, st', ema'. split; [exact Hrun|].
  split; [exact Hgl|]. split; [exact Hgb|].
  split; [rewrite Hfi, Hfc; reflexivity|].
  split; [exact Hsid|]. split; [exact Hv|]. split; [exact Hv0|].
  split; [exact Hd|]. split; [exact He'|]. split; [exact Hel|].
  split; [exact Hvf|exact Her].
Qed.

(** X16: a tick while collecting adds one to the frame counter and then
    does exactly one of three things: nothing more (exactly when the observer
    is missing or one of its coordinates is falsy), post one data frame and
    count it as valid, or post one error and count it.  It never touches
    [CONFIG], the session identifier, the collecting flag or the timer. *)
Theorem sampleGameState_outcomes (win : Window) (now : R) (st : State) :
  isCollecting (samplingState st) = true ->
  let '(st', posted) := sampleGameState win now st in
  frameCount (gameState st') = (frameCount (gameState st) + 1)%Z
  /\ CONFIG st' = CONFIG st
  /\ sessionId (gameState st') = sessionId (gameState st)
  /\ isCollecting (samplingState st') = true
  /\ samplingInterval (samplingState st') = samplingInterval (samplingState st)
  /\ (posted = [] <->
      (getMySnake win = None
       \/ exists s, getMySnake win = Some s
            /\ (truthy (snake_xx s) = false \/ truthy (snake_yy s) = false)))
  /\ ((posted = []
       /\ validFrames (gameState st') = validFrames (gameState st)
       /\ errors (gameState st') = errors (gameState st))
      \/ (exists f, posted = [SLITHER_DATA_FRAME f]
            /\ validFrames (gameState st')
               = (validFrames (gameState st) + 1)%Z
            /\ errors (gameState st') = errors (gameState st))
      \/ (exists e, posted = [SLITHER_ERROR e]
            /\ validFrames (gameState st') = validFrames (gameState st)
            /\ errors (gameState st') = (errors (gameState st) + 1)%Z)).
Proof.
  intros Hcoll.
  pose proof (sampleGameState_cases win now st Hcoll) as Hcases.
  assert (Hsilent :
    (getMySnake win = None
     \/ exists s, getMySnake win = Some s
          /\ (truthy (snake_xx s) = false \/ truthy (snake_yy s) = false)) ->
    (sampleGameState win now st).2 = []).
  { unfold sampleGameState. rewrite Hcoll. simpl negb. cbv iota.
    intros [->|(s & -> & [Hs|Hs])]; [reflexivity| |]; rewrite Hs; simpl.
    - reflexivity.
    - rewrite orb_true_r. reflexivity. }
  destruct (sampleGameState win now st) as [st' posted]. simpl in Hsilent.
  destruct Hcases as ((Hc & Hfc & Hsid & _ & _ & Hic & Hti & _ & _) & Hout).
  split; [exact Hfc|]. split; [exact Hc|]. split; [exact Hsid|].
  split; [exact Hic|]. split; [exact Hti|].
  split.
  - split; [|exact Hsilent].
    intros ->.
    destruct Hout as [(_ & _ & _ & _ & Hun)|[(f & Hf & _)|(e & He & _)]];
      [exact Hun|discriminate|discriminate].
  - destruct Hout as [(Hp & Hv & He & _)|[(f & Hf & _ & Hv & He & _)
                                         |(e & Hp & Hv & He & _)]].
    + left. auto.
    + right. left. eauto.
    + right. right. eauto.
Qed.

(* ===================================================================== *)
(** ** Runs of the event loop *)

Lemma startCollection_counters (now : Z) (st : State) :
  let '(st', posted, thrown) := startCollection now st in
  frameCount (gameState st') = frameCount (gameState st)
  /\ validFrames (gameState st') = validFrames (gameState st)
  /\ errors (gameState st') = errors (gameState st)
  /\ CONFIG st' = CONFIG st
  /\ frameIndices (map Post posted) = []
  /\ forallb notError (map Post posted) = true.
Proof.
  unfold startCollection.
  destruct (isCollecting (samplingState st)); [repeat split|].
  destruct (newFloat32Array _); repeat split.
Qed.

Lemma stopCollection_counters (st : State) :
  let '(st', posted) := stopCollection st in
  gameState st' = gameState st
  /\ CONFIG st' = CONFIG st
  /\ frameIndices (map Post posted) = []
  /\ forallb notError (map Post posted) = true.
Proof.
  unfold stopCollection.
  destruct (isCollecting (samplingState st)); simpl; [|repeat split].
  destruct (samplingInterval (samplingState st)); repeat split.
Qed.

(** What one turn of the event loop does to the counters and which frame
    index it sends. *)
Lemma step_counters (st : State) (input : Input) :
  let '(st', out) := step st input in
  (errors (gameState st) <= errors (gameState st'))%Z
  /\ ((frameIndices out = []
       /\ validFrames (gameState st') = validFrames (gameState st)
       /\ (frameCount (gameState st) <= frameCount (gameState st')
           <= frameCount (gameState st) + 1)%Z)
      \/ (frameIndices out = [frameCount (gameState st')]
          /\ validFrames (gameState st') = (validFrames (gameState st) + 1)%Z
          /\ frameCount (gameState st')
             = (frameCount (gameState st) + 1)%Z)).
Proof.
  destruct input as [sameSource now data|win now|win|]; simpl.
  - unfold onMessage. destruct sameSource; simpl; [|split; [lia|left; repeat split; lia]].
    destruct data as [config|config| | |b|frame| |]; simpl;
      try (split; [lia|left; repeat split; lia]).
    + destruct config; simpl; (split; [lia|left; repeat split; lia]).
    + destruct config; simpl; (split; [lia|left; repeat split; lia]).
    + pose proof (startCollection_counters now st) as H.
      destruct (startCollection now st) as [[st' posted] thrown].
      destruct H as (Hf & Hv & He & _ & Hi & _). simpl.
      split; [lia|]. left. repeat split; [exact Hi|exact Hv|lia|lia].
    + pose proof (stopCollection_counters st) as H.
      destruct (stopCollection st) as [st' posted].
      destruct H as (Hg & _ & Hi & _). simpl. rewrite Hg.
      split; [lia|]. left. repeat split; [exact Hi|lia|lia].
  - destruct (samplingInterval (samplingState st));
      [|split; [lia|left; repeat split; lia]].
    destruct (isCollecting (samplingState st)) eqn:Hcoll.
    + pose proof (sampleGameState_cases win now st Hcoll) as H.
      destruct (sampleGameState win now st) as [st' posted].
      destruct H as ((_ & Hfc & _) & [(-> & Hv & He & _)
                                     |[(f & -> & Hfi & Hv & He & _)
                                      |(e & -> & Hv & He & _)]]); simpl.
      * split; [lia|]. left. repeat split; [exact Hv|lia|lia].
      * split; [lia|]. right. repeat split; [congruence|exact Hv|exact Hfc].
      * split; [lia|]. left. repeat split; [exact Hv|lia|lia].
    + unfold sampleGameState. rewrite Hcoll. simpl.
      split; [lia|left; repeat split; lia].
  - unfold checkGameState. simpl.
    destruct (_ && negb _); simpl; (split; [lia|left; repeat split; lia]).
  - split; [lia|left; repeat split; lia].
Qed.

Lemma frameIndices_app (out1 out2 : list Effect) :
  frameIndices (out1 ++ out2) = frameIndices out1 ++ frameIndices out2.
Proof. unfold frameIndices. apply omap_app. Qed.

(** X17: over any run of the event loop the three counters never decrease;
    the frames sent carry strictly increasing indices (gaps are possible),
    all above the frame counter at the start and at most the frame counter
    at the end; and the valid-frame counter grows by exactly the number of
    frames sent. *)
Theorem run_frame_indices (inputs : list Input) :
  forall st : State,
    let '(st', out) := run st inputs in
    (frameCount (gameState st) <= frameCount (gameState st'))%Z
    /\ (errors (gameState st) <= errors (gameState st'))%Z
    /\ validFrames (gameState st')
       = (validFrames (gameState st)
          + Z.of_nat (length (frameIndices out)))%Z
    /\ (validFrames (gameState st') - validFrames (gameState st)
        <= frameCount (gameState st') - frameCount (gameState st))%Z
    /\ StronglySorted Z.lt (frameIndices out)
    /\ Forall (fun i => (frameCount (gameState st) < i
                         <= frameCount (gameState st'))%Z)
         (frameIndices out).
Proof.
  induction inputs as [|input rest IH]; intros st; cbn [run].
  { simpl. repeat split; try lia; constructor. }
  pose proof (step_counters st input) as H1.
  destruct (step st input) as [st1 out1].
  specialize (IH st1). destruct (run st1 rest) as [st2 out2].
  destruct IH as (F2 & E2 & V2 & D2 & S2 & B2).
  rewrite frameIndices_app, length_app.
  destruct H1 as (E1 & [(-> & V1 & F1)|(-> & V1 & F1)]); simpl.
  - split; [lia|]. split; [lia|]. split; [lia|]. split; [lia|].
    split; [exact S2|].
    eapply Forall_impl; [exact B2|]. simpl. intros i Hi. lia.
  - split; [lia|]. split; [lia|]. split; [lia|]. split; [lia|].
    split.
    + constructor; [exact S2|].
      eapply Forall_impl; [exact B2|]. simpl. intros i Hi. lia.
    + constructor; [lia|].
      eapply Forall_impl; [exact B2|]. simpl. intros i Hi. lia.
Qed.

Lemma step_consistent (st : State) (input : Input) :
  consistent st -> (0 <= gridLength (CONFIG st))%Z ->
  quietInput input = true ->
  let '(st', out) := step st input in
  consistent st'
  /\ CONFIG st' = CONFIG st
  /\ errors (gameState st') = errors (gameState st)
  /\ forallb notError out = true.
Proof.
  intros Hcons Hlen Hq.
  assert (Hsame : forall out, forallb notError out = true ->
            consistent st /\ CONFIG st = CONFIG st
            /\ errors (gameState st) = errors (gameState st)
            /\ forallb notError out = true) by auto.
  destruct input as [sameSource now data|win now|win|]; simpl in *;
    try discriminate.
  - unfold onMessage. destruct sameSource; simpl; [|apply (Hsame []); reflexivity].
    destruct data as [config|config| | |b|frame| |]; simpl;
      try discriminate; try (apply (Hsame []); reflexivity).
    + unfold startCollection.
      destruct (isCollecting (samplingState st)) eqn:Hcoll; simpl;
        [apply (Hsame []); reflexivity|].
      fold (gridLength (CONFIG st)). unfold newFloat32Array.
      destruct (Z.ltb_spec (gridLength (CONFIG st)) 0); [lia|]. simpl.
      split; [|repeat split].
      split; simpl; [intros _; split; eauto|discriminate].
    + unfold stopCollection.
      destruct (isCollecting (samplingState st)) eqn:Hcoll; simpl;
        [|apply (Hsame []); reflexivity].
      destruct (samplingInterval (samplingState st)) eqn:Ht; simpl;
        (split; [|repeat split]);
        (split; simpl; [discriminate|intros _; auto]).
  - destruct (samplingInterval (samplingState st)) as [t|] eqn:Ht;
      [|apply (Hsame []); reflexivity].
    destruct Hcons as [Hon Hoff]. rewrite Ht in Hon, Hoff.
    destruct (isCollecting (samplingState st)) eqn:Hcoll;
      [|specialize (Hoff eq_refl); congruence].
    destruct (Hon eq_refl) as [_ Hema].
    pose proof (sampleGameState_cases win now st Hcoll) as H.
    destruct (sampleGameState win now st) as [st' posted].
    destruct H as ((Hc & _ & _ & _ & _ & Hic & Hti & _ & Hes) & Hout).
    assert (Hcons' : consistent st').
    { split.
      - intros _. rewrite Hti, Ht. split; [eauto|auto].
      - rewrite Hic. discriminate. }
    destruct Hout as [(-> & _ & He & _)|[(f & -> & _ & _ & He & _)
                                        |(e & -> & _ & _ & _ & Hbad)]];
      simpl.
    + split; [exact Hcons'|]. repeat split; auto.
    + split; [exact Hcons'|]. repeat split; auto.
    + destruct Hbad as [Hbad|Hbad]; [lia|].
      rewrite Hbad in Hema. destruct Hema. discriminate.
  - unfold checkGameState. simpl.
    destruct (_ && negb _); simpl; (split; [exact Hcons|repeat split]).
Qed.

(** X18: from a consistent state with a valid grid length, a run that
    neither replaces [CONFIG] nor meets a failed backend request stays
    consistent, posts no [SLITHER_ERROR] and leaves the error counter where
    it was: starts, stops, ticks, boost changes, status requests and the
    game-state check cannot fail. *)
Theorem run_error_free (inputs : list Input) :
  forall st : State,
    consistent st -> (0 <= gridLength (CONFIG st))%Z ->
    forallb quietInput inputs = true ->
    let '(st', out) := run st inputs in
    consistent st'
    /\ CONFIG st' = CONFIG st
    /\ errors (gameState st') = errors (gameState st)
    /\ forallb notError out = true.
Proof.
  induction inputs as [|input rest IH]; intros st Hcons Hlen Hq; cbn [run].
  { split; [exact Hcons|repeat split]. }
  simpl in Hq. apply andb_true_iff in Hq as [Hq1 Hq2].
  pose proof (step_consistent st input Hcons Hlen Hq1) as H1.
  destruct (step st input) as [st1 out1].
  destruct H1 as (C1 & K1 & E1 & N1).
  assert (Hlen1 : (0 <= gridLength (CONFIG st1))%Z) by (rewrite K1; exact Hlen).
  specialize (IH st1 C1 Hlen1 Hq2).
  destruct (run st1 rest) as [st2 out2].
  destruct IH as (C2 & K2 & E2 & N2).
  split; [exact C2|]. split; [congruence|]. split; [congruence|].
  rewrite forallb_app, N1, N2. reflexivity.
Qed.

(* ===================================================================== *)
(** ** Starting, stopping and reconfiguring *)

(** X19: a start from Idle followed by a stop posts the two status
    messages and ends Idle with the timer cleared; the stop keeps the session
    identifier, the zeroed EMA array and the counters; a second stop does
    nothing. *)
Theorem start_then_stop (now : Z) (st : State) :
  isCollecting (samplingState st) = false ->
  (0 <= gridLength (CONFIG st))%Z ->
  let '(st1, posted1, thrown) := startCollection now st in
  let '(st2, posted2) := stopCollection st1 in
  thrown = None
  /\ posted1 = [SLITHER_STATUS true (Some (toString now))]
  /\ posted2 = [SLITHER_STATUS false None]
  /\ isCollecting (samplingState st2) = false
  /\ samplingInterval (samplingState st2) = None
  /\ sessionId (gameState st2) = Some (toString now)
  /\ emaChannels (samplingState st2)
     = Some (replicate (Z.to_nat (gridLength (CONFIG st))) 0)
  /\ frameCount (gameState st2) = frameCount (gameState st)
  /\ validFrames (gameState st2) = validFrames (gameState st)
  /\ errors (gameState st2) = errors (gameState st)
  /\ stopCollection st2 = (st2, []).
Proof.
  intros Hidle Hlen. unfold startCollection. rewrite Hidle.
  fold (gridLength (CONFIG st)). unfold newFloat32Array.
  destruct (Z.ltb_spec (gridLength (CONFIG st)) 0) as [Hneg|_]; [lia|].
  unfold stopCollection at 1. simpl.
  repeat split.
Qed.

(** X20: with a negative array length [A*R*C] a start from Idle throws
    [RangeError] after it has set the collecting flag and the session
    identifier: nothing is posted, the EMA array and the timer are as before,
    and every later start returns at once because the flag is set; only a
    stop clears it. *)
Theorem startCollection_negative_length (now now' : Z) (st : State) :
  isCollecting (samplingState st) = false ->
  (gridLength (CONFIG st) < 0)%Z ->
  let '(st', posted, thrown) := startCollection now st in
  thrown = Some RangeError
  /\ posted = []
  /\ isCollecting (samplingState st') = true
  /\ sessionId (gameState st') = Some (toString now)
  /\ emaChannels (samplingState st') = emaChannels (samplingState st)
  /\ samplingInterval (samplingState st')
     = samplingInterval (samplingState st)
  /\ startCollection now' st' = (st', [], None)
  /\ isCollecting (samplingState (stopCollection st').1) = false.
Proof.
  intros Hidle Hlen. unfold startCollection at 1. rewrite Hidle.
  fold (gridLength (CONFIG st)). unfold newFloat32Array.
  destruct (Z.ltb_spec (gridLength (CONFIG st)) 0) as [_|Hpos]; [|lia].
  repeat split; try reflexivity.
  unfold stopCollection. simpl.
  destruct (samplingInterval (samplingState st)); reflexivity.
Qed.

Lemma toString_injective (a b : Z) : toString a = toString b -> a = b.
Proof.
  unfold toString. intros H.
  assert (Hnz : forall z : Z,
            Z.to_int z <> Decimal.Pos Decimal.Nil
            /\ Z.to_int z <> Decimal.Neg Decimal.Nil).
  { intros z. destruct z as [|p|p]; simpl; split; try discriminate;
      intros [= Hp]; pose proof (DecimalPos.Unsigned.to_uint_nonnil p); contradiction. }
  apply DecimalZ.to_int_inj.
  destruct (Hnz a) as [Ha1 Ha2]. destruct (Hnz b) as [Hb1 Hb2].
  pose proof (NilZero.isi (Z.to_int a) Ha1 Ha2) as Ia.
  pose proof (NilZero.isi (Z.to_int b) Hb1 Hb2) as Ib.
  rewrite H in Ia. rewrite Ia in Ib. injection Ib as Hab. exact Hab.
Qed.

(** X21: the session identifier determines the start time: two starts from
    Idle that assign the same identifier happened at the same
    [Date.now()]. *)
Theorem sessionId_determines_start (now1 now2 : Z) (st1 st2 : State) :
  isCollecting (samplingState st1) = false ->
  isCollecting (samplingState st2) = false ->
  sessionId (gameState (startCollection now1 st1).1.1)
  = sessionId (gameState (startCollection now2 st2).1.1) ->
  now1 = now2.
Proof.
  intros H1 H2. unfold startCollection. rewrite H1, H2.
  destruct (newFloat32Array _), (newFloat32Array _); simpl;
    intros [= H]; apply toString_injective; exact H.
Qed.

(** X22: a configuration message replaces [CONFIG] and nothing else: the
    EMA array is not reallocated.  The next frame has a grid of the new
    length [A*R*C] while the EMA array keeps the length it had. *)
Theorem config_update_keeps_ema (now : Z) (patch : ConfigPatch)
  (win : Window) (t : R) (st : State) (mySnake : Snake) (ema : list R) :
  isCollecting (samplingState st) = true ->
  emaChannels (samplingState st) = Some ema ->
  getMySnake win = Some mySnake ->
  truthy (snake_xx mySnake) = true -> truthy (snake_yy mySnake) = true ->
  (0 <= gridLength (mergeConfig (CONFIG st) patch))%Z ->
  let st1 := (onMessage true now (SLITHER_CONFIG (Some patch)) st).1.1 in
  CONFIG st1 = mergeConfig (CONFIG st) patch
  /\ samplingState st1 = samplingState st
  /\ gameState st1 = gameState st
  /\ exists (f : Frame) (st' : State) (ema' : list R),
       sampleGameState win t st1 = (st', [SLITHER_DATA_FRAME f])
       /\ length (grid f)
          = Z.to_nat (gridLength (mergeConfig (CONFIG st) patch))
       /\ angularBins (gridMeta f) = ANGULAR_BINS (mergeConfig (CONFIG st) patch)
       /\ emaChannels (samplingState st') = Some ema'
       /\ length ema' = length ema.
Proof.
  intros Hcoll Hema Hsnake Htx Hty Hlen. simpl.
  split; [reflexivity|]. split; [reflexivity|]. split; [reflexivity|].
  destruct (truthy_number _ Htx) as (x & Hx & Hx0).
  destruct (truthy_number _ Hty) as (y & Hy & Hy0).
  set (st1 := {| CONFIG := mergeConfig (CONFIG st) patch;
                 gameState := gameState st;
                 samplingState := samplingState st |}).
  destruct (sampleGameState_frame win t st1 mySnake x y ema
              Hcoll Hsnake Hx Hx0 Hy Hy0 Hlen Hema)
    as (f & st' & ema' & Hrun & Hgl & _ & _ & _ & _ & _ & _ & _
        & _ & _ & He' & Hel & _).
  exists f, st', ema'. split; [exact Hrun|]. split; [exact Hgl|].
  split; [|split; [exact He'|exact Hel]].
  unfold sampleGameState in Hrun. simpl in Hrun. rewrite Hcoll in Hrun.
  simpl in Hrun. rewrite Hsnake, Hx, Hy in Hrun.
  rewrite (truthy_nonzero x Hx0), (truthy_nonzero y Hy0) in Hrun.
  simpl in Hrun.
  unfold createPolarGrid, newFloat32Array in Hrun.
  destruct (Z.ltb_spec (gridLength (mergeConfig (CONFIG st) patch)) 0);
    [lia|].
  destruct (populateGridWithFood _ _ _ _) as [g1 n1].
  destruct (populateGridWithSnakes _ _ _ _) as [g2 n2].
  rewrite Hema in Hrun.
  destruct (normalizeGrid _ _ _) as [e|[g3 e3]]; [discriminate|].
  injection Hrun as <- <-. reflexivity.
Qed.

(** X23: [checkGameState] reports activity on the rising edge only: it
    posts one message exactly when the game was not active and now a socket
    is open and the observer exists; a second check on the same page posts
    nothing; and it changes nothing but the activity flag. *)
Theorem checkGameState_rising_edge (win : Window) (st : State) :
  let '(st', out) := checkGameState win st in
  isActive (gameState st')
  = win_ws_open win && bool_decide (is_Some (getMySnake win))
  /\ (out = [PostGameState (ReportActive true (gameRadius (gameState st)))]
      <-> (isActive (gameState st) = false
           /\ isActive (gameState st') = true))
  /\ (out = [] <-> ~ (isActive (gameState st) = false
                      /\ isActive (gameState st') = true))
  /\ samplingState st' = samplingState st
  /\ CONFIG st' = CONFIG st
  /\ frameCount (gameState st') = frameCount (gameState st)
  /\ errors (gameState st') = errors (gameState st)
  /\ checkGameState win st' = (st', []).
Proof.
  unfold checkGameState. simpl.
  destruct (win_ws_open win && bool_decide (is_Some (getMySnake win)))
    eqn:Hact;
    destruct (isActive (gameState st)) eqn:Hwas; simpl;
    rewrite ?Hact; simpl;
    (split; [reflexivity|]);
    (split; [split; [try discriminate; auto|intros [? ?]; try discriminate;
                     reflexivity]|]);
    (split; [split; [try discriminate; intros _ [? ?]; discriminate
                    |intros Hn; try reflexivity; exfalso; apply Hn; auto]|]);
    repeat split.
Qed.

(** X24: a boost message reaches the next frame: after
    [SLITHER_BOOST_CHANGE b] the frame of a tick carries [boost = b] in its
    metadata and [1] or [0] accordingly in the player input. *)
Theorem boost_change_reaches_frame (now : Z) (b : bool)
  (win : Window) (t : R) (st : State) (mySnake : Snake) (ema : list R) :
  isCollecting (samplingState st) = true ->
  emaChannels (samplingState st) = Some ema ->
  getMySnake win = Some mySnake ->
  truthy (snake_xx mySnake) = true -> truthy (snake_yy mySnake) = true ->
  (0 <= gridLength (CONFIG st))%Z ->
  let st1 := (onMessage true now (SLITHER_BOOST_CHANGE b) st).1.1 in
  exists (f : Frame) (st' : State),
    sampleGameState win t st1 = (st', [SLITHER_DATA_FRAME f])
    /\ boost (metadata f) = b
    /\ input_boost (playerInput f) = (if b then 1%Z else 0%Z)
    /\ isBoosting (samplingState st') = b.
Proof.
  intros Hcoll Hema Hsnake Htx Hty Hlen. simpl.
  destruct (truthy_number _ Htx) as (x & Hx & Hx0).
  destruct (truthy_number _ Hty) as (y & Hy & Hy0).
  destruct (sampleGameState_frame win t (setIsBoosting st b) mySnake x y ema
              Hcoll Hsnake Hx Hx0 Hy Hy0 Hlen Hema)
    as (f & st' & ema' & Hrun & _ & _ & _ & _ & _ & _ & _ & _
        & Hb & Hib & _).
  exists f, st'. split; [exact Hrun|]. split; [exact Hb|].
  split; [exact Hib|].
  pose proof (sampleGameState_cases win t (setIsBoosting st b) Hcoll) as Hc.
  rewrite Hrun in Hc. destruct Hc as ((_ & _ & _ & _ & _ & _ & _ & Hbo & _) & _).
  exact Hbo.
Qed.

(* ===================================================================== *)
(** ** The WebSocket hook *)

Lemma toInt32_small (z : Z) : (0 <= z < 2 ^ 31)%Z -> toInt32 z = z.
Proof. intros Hz. unfold toInt32. rewrite Z.mod_small; lia. Qed.

Lemma lor_shiftl_small (x n y : Z) :
  (0 <= n)%Z -> (0 <= y < 2 ^ n)%Z ->
  Z.lor (Z.shiftl x n) y = (x * 2 ^ n + y)%Z.
Proof.
  intros Hn Hy.
  assert (Hland : Z.land (Z.shiftl x n) y = 0%Z).
  { apply Z.bits_inj'. intros k Hk.
    rewrite Z.land_spec, Z.bits_0.
    destruct (Z.lt_ge_cases k n) as [Hlt|Hge].
    - rewrite Z.shiftl_spec_low by exact Hlt. reflexivity.
    - assert (Hbit : Z.testbit y k = false).
      { apply Z.testbit_false; [exact Hk|].
        rewrite Z.div_small; [reflexivity|].
        split; [lia|]. apply Z.lt_le_trans with (2 ^ n)%Z; [lia|].
        apply Z.pow_le_mono_r; lia. }
      rewrite Hbit. apply andb_false_r. }
  rewrite <- Z.lxor_lor by exact Hland.
  rewrite <- Z.add_nocarry_lxor by exact Hland.
  rewrite Z.shiftl_mul_pow2 by exact Hn. reflexivity.
Qed.

Lemma byte_range (b : Byte.byte) : (0 <= Z.of_N (Byte.to_N b) < 256)%Z.
Proof. pose proof (Byte.to_N_bounded b). lia. Qed.

(** The radius the three bytes encode, big-endian. *)
Lemma radius_of_bytes (b3 b4 b5 : Z) :
  (0 <= b3 < 256)%Z -> (0 <= b4 < 256)%Z -> (0 <= b5 < 256)%Z ->
  bor (bor (shl b3 16) (shl b4 8)) b5 = (b3 * 65536 + b4 * 256 + b5)%Z.
Proof.
  intros H3 H4 H5. unfold shl, bor.
  change (16 mod 32)%Z with 16%Z. change (8 mod 32)%Z with 8%Z.
  rewrite (toInt32_small b3), (toInt32_small b4), (toInt32_small b5) by lia.
  rewrite (Z.shiftl_mul_pow2 b3 16), (Z.shiftl_mul_pow2 b4 8) by lia.
  change (2 ^ 16)%Z with 65536%Z. change (2 ^ 8)%Z with 256%Z.
  rewrite !(toInt32_small (b3 * 65536)), !(toInt32_small (b4 * 256)) by lia.
  assert (H34 : Z.lor (b3 * 65536) (b4 * 256)
                = (b3 * 65536 + b4 * 256)%Z).
  { pose proof (lor_shiftl_small b3 16 (b4 * 256)) as H.
    rewrite Z.shiftl_mul_pow2 in H by lia.
    change (2 ^ 16)%Z with 65536%Z in H. apply H; lia. }
  rewrite H34, !(toInt32_small (b3 * 65536 + b4 * 256)) by lia.
  assert (H345 : Z.lor (b3 * 65536 + b4 * 256) b5
                 = (b3 * 65536 + b4 * 256 + b5)%Z).
  { pose proof (lor_shiftl_small (b3 * 256 + b4) 8 b5) as H.
    rewrite Z.shiftl_mul_pow2 in H by lia.
    change (2 ^ 8)%Z with 256%Z in H.
    replace ((b3 * 256 + b4) * 256)%Z with (b3 * 65536 + b4 * 256)%Z in H
      by lia.
    apply H; lia. }
  rewrite H345. apply toInt32_small. lia.
Qed.

(** X25: the hook of the userscript reads the game radius from packet [a]
    as the big-endian 24-bit number of bytes 3 to 5 and keeps the first one:
    a radius already known, a packet shorter than 7 bytes or of another type
    changes nothing; the radius is below [2^24] and determines the three
    bytes; and no packet makes the hook count an error. *)
Theorem parseWebSocketMessage_radius (buffer : list Byte.byte)
  (gs : HookState) :
  hook_errors (parseWebSocketMessage buffer gs) = hook_errors gs
  /\ (hook_gameRadius gs <> None -> parseWebSocketMessage buffer gs = gs)
  /\ ((length buffer < 7)%nat -> parseWebSocketMessage buffer gs = gs)
  /\ (forall t, buffer !! 2%nat = Some t -> Byte.to_N t <> 97%N ->
      parseWebSocketMessage buffer gs = gs)
  /\ (forall b0 b1 t b3 b4 b5 b6 rest,
        hook_gameRadius gs = None ->
        buffer = b0 :: b1 :: t :: b3 :: b4 :: b5 :: b6 :: rest ->
        Byte.to_N t = 97%N ->
        let r := (Z.of_N (Byte.to_N b3) * 65536
                  + Z.of_N (Byte.to_N b4) * 256
                  + Z.of_N (Byte.to_N b5))%Z in
        hook_gameRadius (parseWebSocketMessage buffer gs) = Some r
        /\ (0 <= r < 2 ^ 24)%Z
        /\ (r / 65536 = Z.of_N (Byte.to_N b3))%Z
        /\ ((r / 256) mod 256 = Z.of_N (Byte.to_N b4))%Z
        /\ (r mod 256 = Z.of_N (Byte.to_N b5))%Z).
Proof.
  assert (Hgen : forall buf,
            hook_errors (parseWebSocketMessage buf gs) = hook_errors gs
            /\ (hook_gameRadius gs <> None ->
                parseWebSocketMessage buf gs = gs)
            /\ ((length buf < 7)%nat -> parseWebSocketMessage buf gs = gs)
            /\ (forall t, buf !! 2%nat = Some t -> Byte.to_N t <> 97%N ->
                parseWebSocketMessage buf gs = gs)).
  { intros buf. unfold parseWebSocketMessage.
    destruct (Nat.ltb_spec (length buf) 3) as [Hshort|Hlong];
      [repeat split|].
    unfold getUint8.
    destruct (buf !! 2%nat) as [t|] eqn:Ht.
    2:{ apply lookup_ge_None in Ht. lia. }
    destruct (Z.eqb_spec (Z.of_N (Byte.to_N t)) 97) as [Heq|Hne];
      [|repeat split].
    destruct (Nat.leb_spec 7 (length buf)) as [H7|H7]; [|repeat split].
    destruct (decide (hook_gameRadius gs = None)) as [Hnone|Hsome].
    2:{ rewrite bool_decide_eq_false_2 by exact Hsome. repeat split. }
    rewrite bool_decide_eq_true_2 by exact Hnone. simpl andb. cbv iota.
    destruct (lookup_lt_is_Some_2 buf 3) as [b3 H3]; [lia|].
    destruct (lookup_lt_is_Some_2 buf 4) as [b4 H4]; [lia|].
    destruct (lookup_lt_is_Some_2 buf 5) as [b5 H5]; [lia|].
    rewrite H3, H4, H5. simpl.
    split; [reflexivity|]. split; [intros Hc; contradiction|].
    split; [intros Hc; lia|].
    intros t' [= <-] Ht'. exfalso. apply Ht'. lia. }
  destruct (Hgen buffer) as (He & Hl & Hs & Ht).
  split; [exact He|]. split; [exact Hl|]. split; [exact Hs|].
  split; [exact Ht|].
  intros b0 b1 t b3 b4 b5 b6 rest Hnone -> Htype r.
  pose proof (byte_range b3) as R3. pose proof (byte_range b4) as R4.
  pose proof (byte_range b5) as R5.
  split.
  - unfold parseWebSocketMessage, getUint8. simpl.
    rewrite Htype. simpl.
    rewrite bool_decide_eq_true_2 by exact Hnone. simpl.
    rewrite radius_of_bytes by assumption. reflexivity.
  - subst r.
    set (x3 := Z.of_N (Byte.to_N b3)) in *.
    set (x4 := Z.of_N (Byte.to_N b4)) in *.
    set (x5 := Z.of_N (Byte.to_N b5)) in *.
    change (2 ^ 24)%Z with 16777216%Z.
    split; [lia|].
    split; [symmetry; apply (Z.div_unique _ _ _ (x4 * 256 + x5)); lia|].
    split.
    + replace ((x3 * 65536 + x4 * 256 + x5) / 256)%Z with (x3 * 256 + x4)%Z
        by (apply (Z.div_unique _ _ _ x5); lia).
      symmetry. apply (Z.mod_unique _ _ x3); lia.
    + symmetry. apply (Z.mod_unique _ _ (x3 * 256 + x4)); lia.
Qed.

(* ===================================================================== *)
(** ** An empty scene *)

Lemma normalizeCell_zeros (cfg : Config) (n : nat) (ema : list R) (i : nat) :
  (normalizeCell cfg (replicate n 0, ema) i).1 = replicate n 0.
Proof.
  unfold normalizeCell.
  destruct (replicate n 0 !! i) as [g|] eqn:Hg; [|reflexivity].
  apply lookup_replicate in Hg as [-> Hi].
  destruct (ema !! i) as [e|]; [|reflexivity].
  destruct (Rlt_dec 0 _); [|reflexivity]. simpl.
  replace (Rmin 1 (0 / _)) with 0.
  - apply list_insert_id. apply lookup_replicate. auto.
  - unfold Rdiv. rewrite Rmult_0_l. symmetry. apply Rmin_right. lra.
Qed.

Lemma normalizeGrid_zeros (cfg : Config) (n : nat) (ema : list R) :
  exists ema', normalizeGrid cfg (replicate n 0) (Some ema)
               = inr (replicate n 0, Some ema')
               /\ length ema' = length ema.
Proof.
  unfold normalizeGrid.
  assert (Hinv :
    let st := fold_left (normalizeCell cfg) (seq 0 (length (replicate n 0)))
                (replicate n 0, ema) in
    st.1 = replicate n 0 /\ length st.2 = length ema).
  { apply fold_left_invariant with
      (P := fun st : list R * list R =>
              st.1 = replicate n 0 /\ length st.2 = length ema);
      [|simpl; auto].
    intros [g e] i [Hg He]. simpl in Hg. subst g.
    split; [apply normalizeCell_zeros|].
    rewrite (proj2 (normalizeCell_length cfg (replicate n 0, e) i)).
    exact He. }
  destruct (fold_left _ _ _) as [g' e']. simpl in Hinv.
  destruct Hinv as [-> He]. exists e'. auto.
Qed.

(** X26: for a saturation factor other than 0, a tick on a scene without
    food and without snakes (the lists are empty or absent) still sends a
    frame: its grid is all zeros whatever the EMA array holds, and its four
    debug counts are 0. *)
Theorem sampleGameState_empty_scene (win : Window) (now : R) (st : State)
  (mySnake : Snake) (ema : list R) :
  isCollecting (samplingState st) = true ->
  getMySnake win = Some mySnake ->
  truthy (snake_xx mySnake) = true -> truthy (snake_yy mySnake) = true ->
  (0 <= gridLength (CONFIG st))%Z ->
  SATURATION_FACTOR (CONFIG st) <> 0 ->
  emaChannels (samplingState st) = Some ema ->
  getAllFood win = [] -> getAllSnakes win = [] ->
  exists (f : Frame) (st' : State),
    sampleGameState win now st = (st', [SLITHER_DATA_FRAME f])
    /\ grid f = replicate (Z.to_nat (gridLength (CONFIG st))) 0
    /\ debug f = {| foodCount := 0; debug_enemySegments := 0;
                    debug_mySegments := 0; debug_enemyHeads := 0 |}.
Proof.
  intros Hcoll Hsnake Htx Hty Hlen _ Hema Hfood Hsnakes.
  destruct (truthy_number _ Htx) as (x & Hx & Hx0).
  destruct (truthy_number _ Hty) as (y & Hy & Hy0).
  unfold sampleGameState. rewrite Hcoll, Hsnake. simpl negb. cbv iota.
  rewrite Hx, Hy, (truthy_nonzero x Hx0), (truthy_nonzero y Hy0).
  simpl negb. simpl orb. cbv iota. simpl number. cbv iota.
  unfold createPolarGrid, newFloat32Array. simpl CONFIG.
  destruct (Z.ltb_spec (gridLength (CONFIG st)) 0) as [Hneg|_]; [lia|].
  unfold populateGridWithFood, populateGridWithSnakes.
  rewrite Hfood, Hsnakes. cbn [fold_left]. simpl emaChannels. rewrite Hema.
  destruct (normalizeGrid_zeros (CONFIG st)
              (Z.to_nat (gridLength (CONFIG st))) ema) as (ema' & Hrun & _).
  rewrite Hrun.
  eexists _, _. split; [reflexivity|]. split; reflexivity.
Qed.

(* ===================================================================== *)
(** ** The further theorems at concrete inputs *)

Lemma truthy_21600 : truthy (VNum (of_R 21600)) = true.
Proof. apply truthy_nonzero. simpl. lra. Qed.

Lemma angularWarp_odd_increasing_witness :
  angularWarp PI 6 = PI /\ angularWarp 0 6 = 0.
Proof.
  destruct (angularWarp_odd_increasing 6) as (_ & _ & H0 & Hpi & _);
    [lra|].
  split; assumption.
Defined.

Lemma getPolarIndex_angular_exact_witness :
  exists k j, getPolarIndex (of_R 100) (of_R 0) 64 24 60 3200 6 = Some (k, j).
Proof.
  destruct (getPolarIndex_angular_exact (of_R 100) (of_R 0) 64 24 60 3200 6)
    as (k & j & H & _); [lia|lra|simpl; rewrite hypot_100; lra|].
  exists k, j. exact H.
Defined.

Lemma getPolarIndex_angular_monotone_witness :
  exists k1 j1 k2 j2,
    getPolarIndex (of_R 100) (of_R 0) 64 24 60 3200 6 = Some (k1, j1)
    /\ getPolarIndex (of_R (-100)) (of_R 0) 64 24 60 3200 6 = Some (k2, j2)
    /\ (k1 <= k2)%Z.
Proof.
  apply (getPolarIndex_angular_monotone
           (of_R 100) (of_R 0) (of_R (-100)) (of_R 0) 64 24 60 3200 6).
  - lia.
  - lra.
  - simpl. rewrite hypot_100. lra.
  - simpl. rewrite hypot_m100. lra.
  - rewrite atan2_ahead, atan2_behind. pose proof PI_RGT_0. lra.
Defined.

Lemma getPolarIndex_radial_exact_witness :
  exists k j, getPolarIndex (of_R 100) (of_R 0) 64 24 60 3200 6 = Some (k, j).
Proof.
  destruct (getPolarIndex_radial_exact (of_R 100) (of_R 0) 64 24 60 3200 6)
    as (k & j & H & _); [lia|lra|lra|simpl; rewrite hypot_100; lra|].
  exists k, j. exact H.
Defined.

Lemma getPolarIndex_scale_invariant_witness :
  getPolarIndex (Num.mul (of_R 2) (of_R 100)) (Num.mul (of_R 2) (of_R 0))
    64 24 (2 * 60) (2 * 3200) 6
  = getPolarIndex (of_R 100) (of_R 0) 64 24 60 3200 6.
Proof.
  apply (getPolarIndex_scale_invariant 2 (of_R 100) (of_R 0) 64 24 60 3200 6);
    lra.
Defined.



Lemma normalizeGrid_unit_interval_witness :
  exists grid' ema',
    normalizeGrid defaultConfig [1 / 2] (Some [0]) = inr (grid', Some ema')
    /\ Forall (fun x => 0 <= x <= 1) grid'.
Proof.
  destruct (normalizeGrid_unit_interval defaultConfig [1 / 2] [0])
    as (grid' & ema' & Hrun & _ & _ & Hg & _).
  - simpl. lra.
  - simpl. lra.
  - repeat constructor; lra.
  - repeat constructor; lra.
  - exists grid', ema'. split; assumption.
Defined.

Lemma normalizeGrid_keeps_support_witness :
  exists grid' ema' out,
    normalizeGrid defaultConfig [1 / 2] (Some [0]) = inr (grid', Some ema')
    /\ grid' !! 0%nat = Some out.
Proof.
  destruct (normalizeGrid_keeps_support defaultConfig [1 / 2] [0] 0 (1 / 2) 0)
    as (grid' & ema' & out & Hrun & Hout & _);
    try reflexivity.
  - simpl. lra.
  - exists grid', ema', out. split; assumption.
Defined.

(** A grid of two cells over an EMA array of one: the second cell stays
    raw. *)
Lemma normalizeGrid_short_ema_witness :
  exists grid' ema',
    normalizeGrid defaultConfig [1 / 2; 1 / 4] (Some [0])
    = inr (grid', Some ema')
    /\ length grid' = 2%nat
    /\ grid' !! 1%nat = Some (1 / 4).
Proof.
  destruct (normalizeGrid_short_ema defaultConfig [1 / 2; 1 / 4] [0])
    as (grid' & ema' & Hrun & Hlen & _ & Hraw & _).
  - simpl. lra.
  - exists grid', ema'. split; [exact Hrun|]. split; [exact Hlen|].
    apply (Hraw 1%nat). simpl. lia.
Defined.


Lemma sampleGameState_emits_frame_witness :
  exists (f : Frame) (st' : State),
    sampleGameState windowInGame 100 collectingState
    = (st', [SLITHER_DATA_FRAME f])
    /\ length (grid f) = Z.to_nat 6144
    /\ frameIndex f = 1%Z.
Proof.
  destruct (sampleGameState_emits_frame windowInGame 100 collectingState
              snakeInGame (replicate (Z.to_nat 6144) 0))
    as (f & st' & ema' & Hrun & Hlen & _ & Hfi & _ & _ & _ & _ & _ & _
        & Hvf & _);
    try reflexivity; try apply truthy_21600.
  - unfold gridLength. simpl. lia.
  - simpl. lra.
  - exists f, st'. split; [exact Hrun|]. split; [exact Hlen|].
    rewrite Hfi.
    pose proof (sampleGameState_cases windowInGame 100 collectingState
                  eq_refl) as Hc.
    rewrite Hrun in Hc. destruct Hc as ((_ & Hfc & _) & _). exact Hfc.
Defined.

Lemma sampleGameState_outcomes_witness :
  (sampleGameState emptyWindow 100 collectingState).2 = [].
Proof.
  pose proof (sampleGameState_outcomes emptyWindow 100 collectingState
                eq_refl) as H.
  destruct (sampleGameState emptyWindow 100 collectingState) as [st' posted].
  destruct H as (_ & _ & _ & _ & _ & [_ Hsilent] & _).
  apply Hsilent. left. reflexivity.
Defined.

Lemma consistent_initialState : consistent initialState.
Proof. split; simpl; [discriminate|reflexivity]. Qed.

Lemma run_error_free_witness :
  forallb notError
    (run initialState
       [Message_ true 1700000000000 SLITHER_START_COLLECTION;
        Tick windowInGame 100;
        Tick emptyWindow 200;
        Message_ true 1700000001000 SLITHER_STOP_COLLECTION]).2 = true.
Proof.
  pose proof (run_error_free
                [Message_ true 1700000000000 SLITHER_START_COLLECTION;
                 Tick windowInGame 100;
                 Tick emptyWindow 200;
                 Message_ true 1700000001000 SLITHER_STOP_COLLECTION]
                initialState consistent_initialState) as H.
  destruct (run initialState _) as [st' out].
  destruct H as (_ & _ & _ & Hout).
  - unfold gridLength. simpl. lia.
  - reflexivity.
  - exact Hout.
Defined.

Lemma start_then_stop_witness :
  isCollecting
    (samplingState
       (stopCollection (startCollection 1700000000000 initialState).1.1).1)
  = false.
Proof.
  pose proof (start_then_stop 1700000000000 initialState eq_refl) as H.
  destruct (startCollection 1700000000000 initialState)
    as [[st1 posted1] thrown].
  simpl. destruct (stopCollection st1) as [st2 posted2].
  destruct H as (_ & _ & _ & Hidle & _).
  - unfold gridLength. simpl. lia.
  - exact Hidle.
Defined.

Lemma startCollection_negative_length_witness :
  (startCollection 1700000000000
     (updateConfig initialState (Some (angularBinsPatch (-64))))).2
  = Some RangeError.
Proof.
  pose proof (startCollection_negative_length 1700000000000 1700000001000
                (updateConfig initialState (Some (angularBinsPatch (-64))))
                eq_refl) as H.
  destruct (startCollection 1700000000000 _) as [[st' posted] thrown].
  destruct H as (Hthrown & _).
  - unfold gridLength. simpl. lia.
  - exact Hthrown.
Defined.

Lemma sessionId_determines_start_witness :
  1700000000000%Z = 1700000000000%Z.
Proof.
  apply (sessionId_determines_start 1700000000000 1700000000000
           initialState initialState); reflexivity.
Defined.

Lemma config_update_keeps_ema_witness :
  exists (f : Frame) (st' : State) (ema' : list R),
    sampleGameState windowInGame 100
      (onMessage true 0 (SLITHER_CONFIG (Some (angularBinsPatch 32)))
         collectingState).1.1
    = (st', [SLITHER_DATA_FRAME f])
    /\ length (grid f) = Z.to_nat 3072
    /\ emaChannels (samplingState st') = Some ema'
    /\ length ema' = Z.to_nat 6144.
Proof.
  destruct (config_update_keeps_ema 0 (angularBinsPatch 32) windowInGame 100
              collectingState snakeInGame (replicate (Z.to_nat 6144) 0))
    as (_ & _ & _ & f & st' & ema' & Hrun & Hlen & _ & Hema & Hel);
    try reflexivity; try apply truthy_21600.
  - unfold gridLength. simpl. lia.
  - exists f, st', ema'. split; [exact Hrun|]. split; [exact Hlen|].
    split; [exact Hema|]. rewrite Hel. apply length_replicate.
Defined.

Lemma boost_change_reaches_frame_witness :
  exists (f : Frame) (st' : State),
    sampleGameState windowInGame 100
      (onMessage true 0 (SLITHER_BOOST_CHANGE true) collectingState).1.1
    = (st', [SLITHER_DATA_FRAME f])
    /\ boost (metadata f) = true.
Proof.
  destruct (boost_change_reaches_frame 0 true windowInGame 100
              collectingState snakeInGame (replicate (Z.to_nat 6144) 0))
    as (f & st' & Hrun & Hb & _);
    try reflexivity; try apply truthy_21600.
  - unfold gridLength. simpl. lia.
  - exists f, st'. split; assumption.
Defined.

Lemma sampleGameState_empty_scene_witness :
  exists (f : Frame) (st' : State),
    sampleGameState
      {| win_slither := Some snakeInGame; win_snake := None;
         win_slithers := None; win_snakes := None; win_foods := None;
         win_xm := VUndefined; win_ym := VUndefined;
         win_ww := VUndefined; win_hh := VUndefined;
         win_ws_open := true |} 100 collectingState
    = (st', [SLITHER_DATA_FRAME f])
    /\ grid f = replicate (Z.to_nat 6144) 0.
Proof.
  destruct (sampleGameState_empty_scene
              {| win_slither := Some snakeInGame; win_snake := None;
                 win_slithers := None; win_snakes := None; win_foods := None;
                 win_xm := VUndefined; win_ym := VUndefined;
                 win_ww := VUndefined; win_hh := VUndefined;
                 win_ws_open := true |} 100 collectingState
              snakeInGame (replicate (Z.to_nat 6144) 0))
    as (f & st' & Hrun & Hgrid & _);
    try reflexivity; try apply truthy_21600.
  - unfold gridLength. simpl. lia.
  - simpl. lra.
  - exists f, st'. split; assumption.
Defined.

(* ===================================================================== *)
(** ** Theorems: the cells in doubles and binary32 *)










(** *** The normaliser *)

Section Normaliser32.

Variables beta sat : float.

Lemma normalizeCell32_lookup_ne (st : list float * list float) (i j : nat) :
  j <> i ->
  (Float32.normalizeCell beta sat st i).1 !! j = st.1 !! j
  /\ (Float32.normalizeCell beta sat st i).2 !! j = st.2 !! j.
Proof.
  intros Hne. destruct st as [grid ema]. unfold Float32.normalizeCell. simpl.
  destruct (grid !! i) as [g|]; [|done].
  destruct (ema !! i) as [e|]; [|done].
  destruct (0 <? _)%float; simpl;
    rewrite ?list_lookup_insert_ne by congruence; done.
Qed.

Lemma normalizeCell32_lookup_eq (st : list float * list float) (i : nat)
  (g e : float) :
  st.1 !! i = Some g -> st.2 !! i = Some e ->
  (Float32.normalizeCell beta sat st i).2 !! i
  = Some (Float32.emaNext beta g e)
  /\ (Float32.normalizeCell beta sat st i).1 !! i
     = Some (Float32.rescale sat g (Float32.emaNext beta g e)).
Proof.
  destruct st as [grid ema]. simpl. intros Hg He.
  unfold Float32.normalizeCell, Float32.rescale, Float32.emaNext.
  rewrite Hg, He.
  assert (Hi : (i < length grid)%nat) by (apply lookup_lt_is_Some; eauto).
  assert (Hi' : (i < length ema)%nat) by (apply lookup_lt_is_Some; eauto).
  destruct (0 <? _)%float; simpl;
    rewrite ?list_lookup_insert_eq by assumption; done.
Qed.

Lemma fold_normalizeCell32_notin (idxs : list nat) (i : nat) :
  i ∉ idxs ->
  forall st : list float * list float,
    (fold_left (Float32.normalizeCell beta sat) idxs st).1 !! i = st.1 !! i
    /\ (fold_left (Float32.normalizeCell beta sat) idxs st).2 !! i
       = st.2 !! i.
Proof.
  induction idxs as [|a idxs IH]; intros Hnotin st; simpl; [done|].
  apply not_elem_of_cons in Hnotin as [Hne Hnotin].
  destruct (IH Hnotin (Float32.normalizeCell beta sat st a)) as [-> ->].
  apply normalizeCell32_lookup_ne. exact Hne.
Qed.

(** What one call of [normalizeGrid] leaves at index [i] of the two
    arrays. *)
Lemma normalizeGrid32_lookup (grid ema : list float) (i : nat)
  (g e : float) :
  grid !! i = Some g -> ema !! i = Some e ->
  exists grid' ema',
    Float32.normalizeGrid beta sat grid (Some ema) = inr (grid', Some ema')
    /\ ema' !! i = Some (Float32.emaNext beta g e)
    /\ grid' !! i = Some (Float32.rescale sat g (Float32.emaNext beta g e)).
Proof.
  intros Hg He. unfold Float32.normalizeGrid.
  assert (Hi : (i < length grid)%nat) by (apply lookup_lt_is_Some; eauto).
  rewrite (seq_split_at _ _ Hi), fold_left_app. simpl.
  set (st0 := fold_left (Float32.normalizeCell beta sat) (seq 0 i) (grid, ema)).
  assert (H0 : st0.1 !! i = Some g /\ st0.2 !! i = Some e).
  { destruct (fold_normalizeCell32_notin (seq 0 i) i) with (st := (grid, ema))
      as [H1 H2].
    - rewrite elem_of_seq. lia.
    - subst st0. rewrite H1, H2. simpl. done. }
  destruct H0 as [Hg0 He0].
  destruct (normalizeCell32_lookup_eq st0 i g e Hg0 He0) as [He1 Hg1].
  destruct (fold_normalizeCell32_notin (seq (S i) (length grid - S i)) i)
    with (st := Float32.normalizeCell beta sat st0 i) as [H1 H2].
  { rewrite elem_of_seq. lia. }
  destruct (fold_left _ (seq (S i) _) _) as [grid' ema'] eqn:Hfold.
  exists grid', ema'. simpl in H1, H2.
  split; [reflexivity|]. rewrite H1, H2. done.
Qed.

(** A double that compares equal to 0 is not above 0. *)
Lemma eqb_0_not_pos (x : float) :
  (x =? 0)%float = true -> (0 <? x)%float = false.
Proof.
  rewrite FloatAxioms.eqb_spec, FloatAxioms.ltb_spec.
  change (Prim2SF 0) with (S754_zero false).
  destruct (Prim2SF x) as [s|s| |s m e]; try (destruct s); simpl;
    intros H; try discriminate H; reflexivity.
Qed.

(** C4: at every index [i] of both arrays one call of [normalizeGrid]
    stores in the EMA cell the binary32 rounding of the double
    [beta * ema + (1 - beta) * grid]; when the stored value is above 0 the
    grid cell becomes the binary32 rounding of
    [min(1.0, grid / (saturationFactor * ema'))] with [ema'] the stored
    value, and otherwise, in particular when the stored value is 0, the grid
    cell is left as it was. *)
Theorem normalizeGrid_updates_cell_binary32 (grid ema : list float)
  (i : nat) (g e : float) :
  grid !! i = Some g -> ema !! i = Some e ->
  exists (grid' ema' : list float) (e' : float),
    e' = Float32.fround (beta * e + (1 - beta) * g)%float
    /\ Float32.normalizeGrid beta sat grid (Some ema)
       = inr (grid', Some ema')
    /\ ema' !! i = Some e'
    /\ ((0 <? e')%float = true ->
        grid' !! i
        = Some (Float32.fround (Float32.Math_min 1 (g / (sat * e')))))
    /\ ((0 <? e')%float = false -> grid' !! i = Some g)
    /\ ((e' =? 0)%float = true -> grid' !! i = Some g).
Proof.
  intros Hg He.
  destruct (normalizeGrid32_lookup grid ema i g e Hg He)
    as (grid' & ema' & Hrun & Hema & Hgrid).
  exists grid', ema', (Float32.emaNext beta g e).
  split; [reflexivity|]. split; [exact Hrun|]. split; [exact Hema|].
  unfold Float32.rescale in Hgrid.
  split; [|split]; intros H; rewrite Hgrid.
  - rewrite H. reflexivity.
  - rewrite H. reflexivity.
  - rewrite (eqb_0_not_pos _ H). reflexivity.
Qed.

(** *** A constant raw value *)

Section Convergence32.

Variables (raw : nat -> list float) (ema0 : list float) (i : nat)
  (x e0 : float).

Hypothesis raw_const : forall t : nat, raw t !! i = Some x.
Hypothesis ema0_cell : ema0 !! i = Some e0.



End Convergence32.

End Normaliser32.



(** *** Runs at the script's settings *)



(** A one-cell grid holding 0.5 over a fresh EMA cell: the EMA cell holds
    0.004999999888241291, which is neither the double nor the real number
    [beta * 0 + (1 - beta) * 0.5]. *)
Lemma normalizeGrid_ema_cell_is_rounded :
  Float32.normalizeGrid Float32.EMA_BETA Float32.SATURATION_FACTOR
    [0.5%float] (Some [0%float])
  = inr ([1%float], Some [0x1.47ae14p-8%float])
  /\ (Float32.EMA_BETA * 0 + (1 - Float32.EMA_BETA) * 0.5)%float
     = 0x1.47ae147ae148p-8%float
  /\ Float32.toR 0x1.47ae14p-8
     <> Float32.toR Float32.EMA_BETA * Float32.toR 0
        + (1 - Float32.toR Float32.EMA_BETA) * Float32.toR 0.5.
Proof.
  split; [|split].
  - vm_compute. reflexivity.
  - vm_compute. reflexivity.
  - toR_eval. lra.
Qed.

(** A one-cell grid holding 0.5 over a fresh EMA cell. *)
Lemma normalizeGrid_updates_cell_binary32_witness :
  exists (grid' ema' : list float) (e' : float),
    e' = Float32.fround
           (Float32.EMA_BETA * 0 + (1 - Float32.EMA_BETA) * 0.5)%float
    /\ Float32.normalizeGrid Float32.EMA_BETA Float32.SATURATION_FACTOR
         [0.5%float] (Some [0%float])
       = inr (grid', Some ema')
    /\ ema' !! 0%nat = Some e'
    /\ ((0 <? e')%float = true ->
        grid' !! 0%nat
        = Some (Float32.fround
                  (Float32.Math_min 1
                     (0.5 / (Float32.SATURATION_FACTOR * e')))))
    /\ ((0 <? e')%float = false -> grid' !! 0%nat = Some 0.5%float)
    /\ ((e' =? 0)%float = true -> grid' !! 0%nat = Some 0.5%float).
Proof.
  apply (normalizeGrid_updates_cell_binary32
           Float32.EMA_BETA Float32.SATURATION_FACTOR
           [0.5%float] [0%float] 0 0.5%float 0%float);
    reflexivity.
Defined.




